(** * go-bmp: the BMP decoder of decode.go, embedded and verified

    The decoder reads a Windows bitmap from an [io.Reader] into an
    [image.Image].  The embedding follows decode.go function by function:
    the methods of [*decoder] become functions from a decoder value to a
    computation over the reader, a failing call returns an [error], and a
    Go run-time panic (slice bounds, index out of range) is an outcome of
    its own.

    Conventions.
    - A Go [byte] is a [Z] in [0, 256); byte operators are the [Z] bit
      operations, with the wrap to 8 bits written where a result can
      leave the range.
    - Go [int] is 64 bits wide (amd64, arm64).  Every [int] the decoder
      computes comes from header fields below [2^32] and stays far below
      [2^63], so [int] arithmetic is plain [Z] arithmetic; Go's [/] on
      the non-negative operands met here is [Z.quot].
    - The reader is a finite byte sequence (a file, a [bytes.Reader]):
      the bytes not yet consumed. *)

From stdpp Require Import base numbers list.

Local Open Scope Z_scope.

(** ** Errors and outcomes *)

(** [io.EOF], [io.ErrUnexpectedEOF], and the six [fmt.Errorf] values of
    [readHeader], each with the value its message prints. *)
Inductive error : Type :=
| io_EOF
| io_ErrUnexpectedEOF
| ErrSignature (got : list Z)
| ErrDibLen (got : Z)
| ErrSize (w h : Z)
| ErrCompression (got : Z)
| ErrOffset (got : Z)
| ErrBpp (got : Z).

Inductive result (A : Type) : Type :=
| Ok (a : A)
| Err (e : error)
| Panic.
Arguments Ok {A} a.
Arguments Err {A} e.
Arguments Panic {A}.

(** A computation over the reader [d.r]: it consumes a prefix of the
    remaining bytes. *)
Definition M (A : Type) : Type := list Z → result A * list Z.

Definition ret {A} (a : A) : M A := λ r, (Ok a, r).
Definition throw {A} (e : error) : M A := λ r, (Err e, r).
Definition panic {A} : M A := λ r, (Panic, r).
Definition bind {A B} (m : M A) (f : A → M B) : M B :=
  λ r, match m r with
       | (Ok a, r') => f a r'
       | (Err e, r') => (Err e, r')
       | (Panic, r') => (Panic, r')
       end.

Notation "'do' x <- m ; k" := (bind m (λ x, k))
  (at level 10, x name, m at level 100, k at level 200).
Notation "'do' ' pat <- m ; k" := (bind m (λ x, match x with pat => k end))
  (at level 10, pat pattern, m at level 100, k at level 200).

(** A step that does not touch the reader. *)
Definition liftR {A} (x : result A) : M A := λ r, (x, r).

(** A step that cannot fail with an error but can panic ([None]). *)
Definition lift {A} (o : option A) : M A :=
  match o with Some a => ret a | None => panic end.

(** [for x in l { s = body x s }], in [option] and in [M]. *)
Fixpoint foldM {A S} (body : A → S → option S) (l : list A) (s : S) : option S :=
  match l with
  | [] => Some s
  | x :: l' => match body x s with Some s' => foldM body l' s' | None => None end
  end.

Fixpoint forM {A S} (body : A → S → M S) (l : list A) (s : S) : M S :=
  match l with
  | [] => ret s
  | x :: l' => do s' <- body x s; forM body l' s'
  end.

(** ** Go library functions used by the decoder *)

(** [io.ReadFull(r, buf)] with [len(buf) = n]: the bytes read, and [nil],
    or [io.EOF] when no byte was read, or [io.ErrUnexpectedEOF] when some
    but fewer than [n] were. *)
Definition io_ReadFull (n : nat) (r : list Z) : list Z * option error * list Z :=
  if decide (n ≤ length r)%nat then (take n r, None, drop n r)
  else (r, Some (match r with [] => io_EOF | _ => io_ErrUnexpectedEOF end), []).

(** [binary.LittleEndian.Uint16(b)] and [Uint32(b)]: they read [b[0..1]]
    and [b[0..3]]; every slice the decoder passes is long enough. *)
Definition Uint16 (b : list Z) : Z :=
  Z.lor (b !!! 0%nat) (Z.shiftl (b !!! 1%nat) 8).
Definition Uint32 (b : list Z) : Z :=
  Z.lor (Z.lor (Z.lor (b !!! 0%nat) (Z.shiftl (b !!! 1%nat) 8))
               (Z.shiftl (b !!! 2%nat) 16))
        (Z.shiftl (b !!! 3%nat) 24).

(** The conversion [int32(u)] of a [uint32]. *)
Definition int32 (u : Z) : Z := if u <? 2 ^ 31 then u else u - 2 ^ 32.

(** The conversion [uint8(x)]. *)
Definition uint8 (x : Z) : Z := x `mod` 256.

(** [a[lo:hi]] of an array or slice whose elements are only read. *)
Definition sub (a : list Z) (lo hi : Z) : list Z :=
  take (Z.to_nat (hi - lo)) (drop (Z.to_nat lo) a).

(** ** Images *)

Record RGBA : Type := mkRGBA { R : Z; G : Z; B : Z; A : Z }.

(** [color.Model]: [color.RGBAModel] or a [color.Palette]. *)
Inductive Model : Type :=
| RGBAModel
| Palette (p : list RGBA).

Record Config : Type :=
  mkConfig { ColorModel : option Model; Width : Z; Height : Z }.

(** The fields shared by [image.Paletted], [image.RGBA] and [image.NRGBA]:
    the pixel bytes, the stride and the bounds [image.Rect(0, 0, w, h)]. *)
Record Buf : Type := mkBuf { Pix : list Z; Stride : Z; MaxX : Z; MaxY : Z }.

Inductive Image : Type :=
| PalettedImage (b : Buf) (p : list RGBA)
| RGBAImage (b : Buf)
| NRGBAImage (b : Buf).

(** [image.NewPaletted], [image.NewRGBA] and [image.NewNRGBA] on
    [image.Rect(0, 0, w, h)]: a zeroed buffer of [bytesPerPixel * w * h]
    bytes. *)
Definition NewBuf (bytesPerPixel w h : Z) : Buf :=
  {| Pix := replicate (Z.to_nat (bytesPerPixel * w * h)) 0;
     Stride := bytesPerPixel * w; MaxX := w; MaxY := h |}.

(** A slice into the backing array of [Pix]: [base] is the offset of its
    first element, [len] and [cap] are Go's. *)
Record slice : Type := mkSlice { base : Z; len : Z; cap : Z }.

(** [s[lo:hi]]: panics unless [0 <= lo <= hi <= cap(s)]. *)
Definition reslice (s : slice) (lo hi : Z) : option slice :=
  if (0 <=? lo) && (lo <=? hi) && (hi <=? cap s)
  then Some {| base := base s + lo; len := hi - lo; cap := cap s - lo |}
  else None.

Definition whole (pix : list Z) : slice :=
  {| base := 0; len := Z.of_nat (length pix); cap := Z.of_nat (length pix) |}.

(** [s[k]] and [s[k] = v]: panic unless [0 <= k < len(s)]. *)
Definition load (pix : list Z) (s : slice) (k : Z) : option Z :=
  if (0 <=? k) && (k <? len s) then pix !! Z.to_nat (base s + k) else None.
Definition store (pix : list Z) (s : slice) (k v : Z) : option (list Z) :=
  if (0 <=? k) && (k <? len s) then Some (<[Z.to_nat (base s + k) := v]> pix)
  else None.

(** [a[i]] of the array [d.tmp]: panics out of range. *)
Definition at_ (a : list Z) (i : Z) : option Z :=
  if 0 <=? i then a !! Z.to_nat i else None.

(** ** The decoder *)

Record decoder : Type := mkDecoder {
  image : option Image;
  config : Config;
  tmp : list Z;
  topDown : bool;
  bpp : Z;
  numColor : Z;
  width : Z;
  height : Z
}.

Definition set_image (i : option Image) (d : decoder) : decoder :=
  mkDecoder i (config d) (tmp d) (topDown d) (bpp d) (numColor d) (width d) (height d).
Definition set_config (c : Config) (d : decoder) : decoder :=
  mkDecoder (image d) c (tmp d) (topDown d) (bpp d) (numColor d) (width d) (height d).
Definition set_tmp (t : list Z) (d : decoder) : decoder :=
  mkDecoder (image d) (config d) t (topDown d) (bpp d) (numColor d) (width d) (height d).
Definition set_topDown (b : bool) (d : decoder) : decoder :=
  mkDecoder (image d) (config d) (tmp d) b (bpp d) (numColor d) (width d) (height d).
Definition set_bpp (b : Z) (d : decoder) : decoder :=
  mkDecoder (image d) (config d) (tmp d) (topDown d) b (numColor d) (width d) (height d).
Definition set_numColor (n : Z) (d : decoder) : decoder :=
  mkDecoder (image d) (config d) (tmp d) (topDown d) (bpp d) n (width d) (height d).
Definition set_width (w : Z) (d : decoder) : decoder :=
  mkDecoder (image d) (config d) (tmp d) (topDown d) (bpp d) (numColor d) w (height d).
Definition set_height (h : Z) (d : decoder) : decoder :=
  mkDecoder (image d) (config d) (tmp d) (topDown d) (bpp d) (numColor d) (width d) h.

(** [&decoder{r: r}]: every other field has its zero value; [tmp] is
    [[3 * 256]byte]. *)
Definition tmpLen : Z := 3 * 256.
Definition new_decoder : decoder :=
  {| image := None;
     config := {| ColorModel := None; Width := 0; Height := 0 |};
     tmp := replicate (Z.to_nat tmpLen) 0;
     topDown := false; bpp := 0; numColor := 0; width := 0; height := 0 |}.

(** The read that occurs six times in decode.go:
<<
    if _, err := io.ReadFull(d.r, d.tmp[lo:hi]); err != nil {
        if err == io.EOF { err = io.ErrUnexpectedEOF }
        return err
    }
>>
    The slice expression panics unless [0 <= lo <= hi <= len(d.tmp)]; it
    is evaluated before the call. *)
Definition wrapEOF (err : error) : error :=
  match err with io_EOF => io_ErrUnexpectedEOF | _ => err end.

Definition readTmp (lo hi : Z) (d : decoder) : M decoder :=
  λ r,
    if negb ((0 <=? lo) && (lo <=? hi) && (hi <=? Z.of_nat (length (tmp d))))
    then (Panic, r)
    else match io_ReadFull (Z.to_nat (hi - lo)) r with
         | (buf, None, r') =>
             (Ok (set_tmp (take (Z.to_nat lo) (tmp d) ++ buf
                           ++ drop (Z.to_nat hi) (tmp d)) d), r')
         | (_, Some err, r') => (Err (wrapEOF err), r')
         end.

Definition fileHeaderLen : Z := 14.
Definition infoHeaderLen : Z := 40.

Definition supportedDibLen (dibLen : Z) : bool :=
  bool_decide (dibLen ∈ [40; 52; 60; 96; 108; 112; 120; 124]).

(** [readHeader], lines 58-101: the checks on the header held in
    [d.tmp] once both reads are done. *)
Definition checkHeader (dibLen : Z) (d : decoder) : result decoder :=
  let d := set_width (int32 (Uint32 (sub (tmp d) 18 22))) d in
  let d := set_height (int32 (Uint32 (sub (tmp d) 22 26))) d in
  let d := if height d <? 0
           then set_topDown true (set_height (- height d) d) else d in
  if (width d <=? 0) || (height d =? 0) then Err (ErrSize (width d) (height d))
  else
    let d := set_bpp (Uint16 (sub (tmp d) 28 30)) d in
    let compression := Uint16 (sub (tmp d) 30 34) in
    let rm := Uint32 (sub (tmp d) 54 58) in
    let gm := Uint32 (sub (tmp d) 58 62) in
    let bm := Uint32 (sub (tmp d) 62 66) in
    let mask := Z.lxor (Z.lxor rm gm) bm in
    let compression :=
      if ((compression =? 3) && (infoHeaderLen <? dibLen)
          && ((bpp d =? 16) && (mask =? 0x7fff)))
         || ((bpp d =? 32) && (mask =? 0x00ffffff))
      then 0 else compression in
    if negb (compression =? 0) then Err (ErrCompression compression)
    else
      let offset := Uint32 (sub (tmp d) 10 14) in
      let d := set_numColor (Uint32 (sub (tmp d) 46 50)) d in
      if bool_decide (bpp d ∈ [1; 4; 8]) then
        if negb (offset =? fileHeaderLen + dibLen + numColor d * 4)
        then Err (ErrOffset offset) else Ok d
      else if bool_decide (bpp d ∈ [16; 24; 32]) then
        if negb (offset =? fileHeaderLen + dibLen)
        then Err (ErrOffset offset) else Ok d
      else Err (ErrBpp (bpp d)).

Definition readHeader (d : decoder) : M decoder :=
  do d <- readTmp 0 (fileHeaderLen + 4) d;
  if negb (bool_decide (sub (tmp d) 0 2 = [0x42; 0x4d]))
  then throw (ErrSignature (sub (tmp d) 0 2))
  else
    let dibLen := Uint32 (sub (tmp d) fileHeaderLen (fileHeaderLen + 4)) in
    if negb (supportedDibLen dibLen) then throw (ErrDibLen dibLen)
    else
      do d <- readTmp (fileHeaderLen + 4) (fileHeaderLen + dibLen) d;
      liftR (checkHeader dibLen d).

(** [decodeConfig]. *)
Definition decodeConfig (d : decoder) : M decoder :=
  do d <- readHeader d;
  do ' (d, model) <-
    (if bool_decide (bpp d ∈ [1; 4; 8]) then
       do d <- readTmp 0 (numColor d * 4) d;
       let colorTable :=
         (λ i, (* BGR order *)
            {| R := tmp d !!! Z.to_nat (4 * i + 2);
               G := tmp d !!! Z.to_nat (4 * i + 1);
               B := tmp d !!! Z.to_nat (4 * i);
               A := 0xff |}) <$> seqZ 0 (numColor d) in
       ret (d, Some (Palette colorTable))
     else if bool_decide (bpp d ∈ [16; 24; 32]) then ret (d, Some RGBAModel)
     else ret (d, None));
  ret (set_config {| ColorModel := model; Width := width d; Height := height d |} d).

(** The rows visited by [for y := y0; y != y1; y += dy], where
    [(y0, y1, dy)] is [(d.height-1, -1, -1)] or, top-down,
    [(0, d.height, 1)].  The loop leaves on [y == y1]; [fuel] bounds the
    recursion and [rowOrder_spec] shows [d.height] iterations reach [y1]. *)
Fixpoint for_y (fuel : nat) (y y1 dy : Z) : list Z :=
  match fuel with
  | O => []
  | S fuel' => if y =? y1 then [] else y :: for_y fuel' (y + dy) y1 dy
  end.

Definition rowOrder (d : decoder) : list Z :=
  if topDown d then for_y (Z.to_nat (height d)) 0 (height d) 1
  else for_y (Z.to_nat (height d)) (height d - 1) (-1) (-1).

(** The row loop shared by [decodePalleted], [decode16] and [decode24]:
<<
    for y := y0; y != y1; y += dy {
        if _, err := io.ReadFull(d.r, d.tmp[:n]); err != nil { ... }
        p := img.Pix[y*img.Stride : (y+1)*img.Stride]
        ... stores into p, loads from d.tmp ...
    }
>>
    [unpack tmp p pix] is the rest of the loop body. *)
Definition rows (n : Z) (stride : Z)
    (unpack : list Z → slice → list Z → option (list Z))
    (d : decoder) (pix : list Z) : M (decoder * list Z) :=
  forM (λ y '(d, pix),
          do d <- readTmp 0 n d;
          do p <- lift (reslice (whole pix) (y * stride) ((y + 1) * stride));
          do pix <- lift (unpack (tmp d) p pix);
          ret (d, pix))
       (rowOrder d) (d, pix).

(** The palette index of the [j]-th pixel of source byte [b]:
<<
    (b & (0xff &^ (0xff >> d.bpp) >> (d.bpp * j))) >> (8 - (d.bpp * (j + 1)))
>>
    In Go [&^], [>>] and [&] have one precedence and associate to the
    left, and the untyped constants take the type [byte] of [b]. *)
Definition pixelIndex (b bpp j : Z) : Z :=
  Z.shiftr (Z.land b (Z.shiftr (Z.ldiff 0xff (Z.shiftr 0xff bpp)) (bpp * j)))
           (8 - bpp * (j + 1)).

(** [decodePalleted], lines 155-169. *)
Definition unpackPalleted (w bpp : Z) (tmp : list Z) (p : slice) (pix : list Z)
    : option (list Z) :=
  if w <? 8 `quot` bpp then
    foldM (λ j pix,
             b ← at_ tmp 0;
             store pix p j (pixelIndex b bpp j))
          (seqZ 0 w) pix
  else
    foldM (λ i pix,
             foldM (λ j pix,
                      b ← at_ tmp i;
                      store pix p (i * 2 + j) (pixelIndex b bpp j))
                   (seqZ 0 (8 `quot` bpp)) pix)
          (seqZ 0 (((w + 1) * bpp) `quot` 8)) pix.

(** [decodePalleted]; [decodePalleted_fill] is the function up to its
    last assignment, with the local [paletted] as result. *)
Definition decodePalleted_fill (d : decoder) : M (decoder * Image) :=
  match ColorModel (config d) with
  | Some (Palette pal) =>
      let paletted := NewBuf 1 (width d) (height d) in
      do ' (d, pix) <-
        rows ((width d * bpp d + 31) `quot` 32 * 4) (Stride paletted)
             (unpackPalleted (width d) (bpp d)) d (Pix paletted);
      ret (d, PalettedImage (mkBuf pix (Stride paletted) (MaxX paletted) (MaxY paletted)) pal)
  | _ => panic (* d.config.ColorModel.(color.Palette) *)
  end.

Definition decodePalleted (d : decoder) : M decoder :=
  do ' (d, paletted) <- decodePalleted_fill d;
  ret (set_image (Some paletted) d).

(** [decode16], lines 195-201; iteration [k] of
    [for i, j := 0, 0; i < d.width*4; i, j = i+4, j+2] has [i = 4k] and
    [j = 2k]. *)
Definition unpack16 (w : Z) (tmp : list Z) (p : slice) (pix : list Z)
    : option (list Z) :=
  foldM (λ k pix,
           let i := 4 * k in
           let j := 2 * k in
           (* BGR order *)
           hi ← at_ tmp (j + 1);
           pix ← store pix p i (Z.shiftr (Z.land hi 0x3e) 1);
           lo ← at_ tmp j;
           hi ← at_ tmp (j + 1);
           pix ← store pix p (i + 1)
                   (Z.lor (uint8 (Z.shiftl (Z.land lo 0x07) 3))
                          (Z.shiftr (Z.land hi 0xc0) 6));
           lo ← at_ tmp j;
           pix ← store pix p (i + 2) (Z.shiftr (Z.land lo 0xf8) 3);
           store pix p (i + 3) 0xff)
        (seqZ 0 w) pix.

(** [x &^ 3] on a non-negative [int]. *)
Definition clear3 (x : Z) : Z := Z.ldiff x 3.

(** [decode16] returns only the error: the local [rgba] is dropped.
    [decode16_fill] is the function with [rgba] as result. *)
Definition decode16_fill (d : decoder) : M (decoder * Image) :=
  let rgba := NewBuf 4 (width d) (height d) in
  do ' (d, pix) <-
    rows (clear3 (width d * 2 + 3)) (Stride rgba) (unpack16 (width d)) d (Pix rgba);
  ret (d, RGBAImage (mkBuf pix (Stride rgba) (MaxX rgba) (MaxY rgba))).

Definition decode16 (d : decoder) : M decoder :=
  do ' (d, _) <- decode16_fill d;
  ret d.

(** [decode24], lines 225-231; iteration [k] has [i = 4k] and [j = 3k]. *)
Definition unpack24 (w : Z) (tmp : list Z) (p : slice) (pix : list Z)
    : option (list Z) :=
  foldM (λ k pix,
           let i := 4 * k in
           let j := 3 * k in
           (* BGR order *)
           r ← at_ tmp (j + 2);
           pix ← store pix p i r;
           g ← at_ tmp (j + 1);
           pix ← store pix p (i + 1) g;
           b ← at_ tmp j;
           pix ← store pix p (i + 2) b;
           store pix p (i + 3) 0xff)
        (seqZ 0 w) pix.

Definition decode24_fill (d : decoder) : M (decoder * Image) :=
  let rgba := NewBuf 4 (width d) (height d) in
  do ' (d, pix) <-
    rows (clear3 (width d * 3 + 3)) (Stride rgba) (unpack24 (width d)) d (Pix rgba);
  ret (d, RGBAImage (mkBuf pix (Stride rgba) (MaxX rgba) (MaxY rgba))).

Definition decode24 (d : decoder) : M decoder :=
  do ' (d, _) <- decode24_fill d;
  ret d.

(** [io.ReadFull(d.r, q)] for a slice [q] of [Pix]; the bytes land in the
    backing array at [base q]. *)
Definition readPix (q : slice) (pix : list Z) : M (list Z) :=
  λ r, match io_ReadFull (Z.to_nat (len q)) r with
       | (buf, None, r') =>
           (Ok (take (Z.to_nat (base q)) pix ++ buf
                ++ drop (Z.to_nat (base q + len q)) pix), r')
       | (_, Some err, r') => (Err (wrapEOF err), r')
       end.

(** [decode32], lines 255-258: [p[i], p[i+2] = p[i+2], p[i]] for every
    [i] below [d.width*4]. *)
Definition swap32 (w : Z) (p : slice) (pix : list Z) : option (list Z) :=
  foldM (λ i pix,
           (* BGRA order *)
           a ← load pix p (i + 2);
           b ← load pix p i;
           pix ← store pix p i a;
           store pix p (i + 2) b)
        (seqZ 0 (w * 4)) pix.

Definition decode32_fill (d : decoder) : M (decoder * Image) :=
  let rgba := NewBuf 4 (width d) (height d) in
  do pix <-
    forM (λ y pix,
            do p <- lift (reslice (whole pix) (y * Stride rgba) ((y + 1) * Stride rgba));
            do q <- lift (reslice p (y * Stride rgba) (y * (Stride rgba + 1)));
            do pix <- readPix q pix;
            lift (swap32 (width d) p pix))
         (rowOrder d) (Pix rgba);
  ret (d, NRGBAImage (mkBuf pix (Stride rgba) (MaxX rgba) (MaxY rgba))).

Definition decode32 (d : decoder) : M decoder :=
  do ' (d, _) <- decode32_fill d;
  ret d.

(** [decode]. *)
Definition decode (d : decoder) : M decoder :=
  do d <- decodeConfig d;
  if bool_decide (bpp d ∈ [1; 4; 8]) then decodePalleted d
  else if bpp d =? 16 then decode16 d
  else if bpp d =? 24 then decode24 d
  else if bpp d =? 32 then decode32 d
  else ret d.

(** ** The public functions

    A call returns its two results or panics. *)
Inductive call (A : Type) : Type :=
| Returns (a : A)
| Panics.
Arguments Returns {A} a.
Arguments Panics {A}.

(** [Decode]: [(nil, err)] on error, [(d.image, nil)] otherwise. *)
Definition Decode (r : list Z) : call (option Image * option error) * list Z :=
  match decode new_decoder r with
  | (Ok d, r') => (Returns (image d, None), r')
  | (Err err, r') => (Returns (None, Some err), r')
  | (Panic, r') => (Panics, r')
  end.

(** [DecodeConfig]: [(image.Config{}, err)] on error, [(d.config, nil)]
    otherwise. *)
Definition DecodeConfig (r : list Z) : call (Config * option error) * list Z :=
  match decodeConfig new_decoder r with
  | (Ok d, r') => (Returns (config d, None), r')
  | (Err err, r') => (Returns ({| ColorModel := None; Width := 0; Height := 0 |}, Some err), r')
  | (Panic, r') => (Panics, r')
  end.

(** ** Building inputs *)

Definition le16 (x : Z) : list Z := [x `mod` 256; (x `div` 256) `mod` 256].
Definition le32 (x : Z) : list Z :=
  [x `mod` 256; (x `div` 2 ^ 8) `mod` 256; (x `div` 2 ^ 16) `mod` 256;
   (x `div` 2 ^ 24) `mod` 256].

(** A file header and a DIB header of [dibLen] bytes; [extra] is what
    follows the 40 bytes of the info header. *)
Definition mkHeader (offset dibLen w h bpp compression ncolor : Z) (extra : list Z)
    : list Z :=
  [0x42; 0x4d] ++ le32 0 ++ le32 0 ++ le32 offset
  ++ le32 dibLen ++ le32 w ++ le32 h ++ le16 1 ++ le16 bpp ++ le32 compression
  ++ le32 0 ++ le32 0 ++ le32 0 ++ le32 ncolor ++ le32 0 ++ extra.


(** ** Sample inputs *)

(** The 6x4 1-bit bitmap of the repository's test: rows of six pixels,
    one padded byte row each, stored bottom-up. *)
Definition bmp1_6x4 : list Z :=
  mkHeader 62 40 6 4 1 0 2 [] ++ [0; 0; 0; 0; 0xff; 0xff; 0xff; 0]
  ++ [0x48; 0; 0; 0] ++ [0x94; 0; 0; 0] ++ [0x48; 0; 0; 0] ++ [0xa4; 0; 0; 0].

(** A 16x1 1-bit bitmap: first source byte all zero, second all one. *)
Definition bmp1_16x1 : list Z :=
  mkHeader 62 40 16 1 1 0 2 [] ++ [0; 0; 0; 0; 0xff; 0xff; 0xff; 0]
  ++ [0x00; 0xff; 0; 0].

(** 1x1 bitmaps of 8, 16, 24 and 32 bits per pixel. *)
Definition bmp8_1x1 : list Z :=
  mkHeader 58 40 1 1 8 0 1 [] ++ [0x10; 0x20; 0x30; 0] ++ [0; 0; 0; 0].
Definition bmp16_1x1 (lo hi : Z) : list Z :=
  mkHeader 54 40 1 1 16 0 0 [] ++ [lo; hi; 0; 0].
Definition bmp24_1x1 : list Z :=
  mkHeader 54 40 1 1 24 0 0 [] ++ [0x10; 0x20; 0x30; 0].
Definition bmp32_1x1 : list Z :=
  mkHeader 54 40 1 1 32 0 0 [] ++ [0x10; 0x20; 0x30; 0x40].

(** An 8-bit bitmap of one column and two rows, with one colour. *)
Definition bmp8_1x2 : list Z :=
  mkHeader 58 40 1 2 8 0 1 [] ++ [0x10; 0x20; 0x30; 0]
  ++ [0; 0; 0; 0] ++ [0; 0; 0; 0].

(** A 24-bit bitmap of two columns and one row. *)
Definition bmp24_2x1 : list Z :=
  mkHeader 54 40 2 1 24 0 0 [] ++ [0x10; 0x20; 0x30; 0x40; 0x50; 0x60; 0; 0].

(** An 8-bit 1x1 bitmap with the full palette of 256 entries. *)
Definition bmp8_256 : list Z :=
  mkHeader 1078 40 1 1 8 0 256 [] ++ replicate 1024 0x7f ++ [0; 0; 0; 0].

(** A 32-bit header of 52 bytes with the masks of the 888 layout and
    compression code 1 (run-length encoding). *)
Definition hdr32_rle : list Z :=
  mkHeader 66 52 1 1 32 1 0 (le32 0x00ff0000 ++ le32 0x0000ff00 ++ le32 0x000000ff).

(** The header of [bmp1_6x4] with offset field 63 in place of 62. *)
Definition hdr_bad_offset : list Z := mkHeader 63 40 6 4 1 0 2 [].

(** The buffer a [_fill] function hands back, if it returns. *)
Definition filled (x : result (decoder * Image) * list Z) : option Image :=
  match x with (Ok (_, img), _) => Some img | _ => None end.

(** The decoder as [decodeConfig] leaves it on input [s], and the bytes
    that follow. *)
Definition afterConfig (s : list Z) : decoder * list Z :=
  match decodeConfig new_decoder s with
  | (Ok d, r) => (d, r)
  | (_, r) => (new_decoder, r)
  end.

(** ** Properties of computations

    [streams m]: [m] reads its input front to back and decides on nothing
    but the bytes it has consumed.  On every input [r] it consumes some
    [c] bytes; on a prefix of [r] of at least [c] bytes it behaves the
    same; on a shorter prefix it fails with [io.ErrUnexpectedEOF]; and it
    never fails with [io.EOF]. *)
Definition streams {A} (m : M A) : Prop :=
  ∀ r, ∃ c : nat,
    (c ≤ length r)%nat
    ∧ (m r).2 = drop c r
    ∧ (∀ k, (c ≤ k)%nat → m (take k r) = ((m r).1, drop c (take k r)))
    ∧ (∀ k, (k < c)%nat → (m (take k r)).1 = Err io_ErrUnexpectedEOF)
    ∧ (m r).1 ≠ Err io_EOF.

(** The number of bytes a call consumed from [r], given what it left. *)
Definition consumed (r rest : list Z) : nat := (length r - length rest)%nat.

(** ** Header fields of an input

    The fields of the file header and of the info header at their
    offsets in the input, read as [readHeader] reads them. *)
Definition hdrOffset (s : list Z) : Z := Uint32 (sub s 10 14).
Definition hdrDibLen (s : list Z) : Z := Uint32 (sub s 14 18).
Definition hdrWidth (s : list Z) : Z := int32 (Uint32 (sub s 18 22)).
Definition hdrHeight (s : list Z) : Z := int32 (Uint32 (sub s 22 26)).
Definition hdrBpp (s : list Z) : Z := Uint16 (sub s 28 30).
Definition hdrNumColor (s : list Z) : Z := Uint32 (sub s 46 50).

(** [d.tmp] once [readHeader] has read a header of [n] bytes from [s]. *)
Definition hdrTmp (n : Z) (s t : list Z) : list Z :=
  take (Z.to_nat n) s ++ drop (Z.to_nat n) t.

(** The compression field as [readHeader] reads it (two bytes), and the
    XOR of the three channel masks as it finds them in [d.tmp]: the
    bytes 54..65 of the input if the header is longer than 40 bytes,
    and the zero bytes of the fresh buffer otherwise. *)
Definition hdrCompression (s : list Z) : Z := Uint16 (sub s 30 34).
Definition hdrMask (s : list Z) : Z :=
  let t := hdrTmp (fileHeaderLen + hdrDibLen s) s (tmp new_decoder) in
  Z.lxor (Z.lxor (Uint32 (sub t 54 58)) (Uint32 (sub t 58 62)))
         (Uint32 (sub t 62 66)).

(** The compression codes that [readHeader] lets pass: zero, or one that
    the condition of lines 74-76 sets to zero. *)
Definition compressionAccepted (s : list Z) : Prop :=
  hdrCompression s = 0
  ∨ (hdrCompression s = 3 ∧ infoHeaderLen < hdrDibLen s
     ∧ hdrBpp s = 16 ∧ hdrMask s = 0x7fff)
  ∨ (hdrBpp s = 32 ∧ hdrMask s = 0x00ffffff).

(** The errors of the checks that precede the offset check in
    [readHeader]. *)
Definition earlierCheck (e : error) : Prop :=
  match e with
  | io_ErrUnexpectedEOF | ErrSignature _ | ErrDibLen _ | ErrSize _ _
  | ErrCompression _ => True
  | _ => False
  end.

(** ** Rows

    The part of a row-loop iteration that follows the read: slice row
    [y] out of [Pix] and unpack [tmp] into it. *)
Definition onRow (stride : Z) (unpack : list Z → slice → list Z → option (list Z))
    (tmp : list Z) (y : Z) (pix : list Z) : option (list Z) :=
  p ← reslice (whole pix) (y * stride) ((y + 1) * stride);
  unpack tmp p pix.

(** The first [k] rows of [n] bytes each of the pixel data [r]. *)
Fixpoint chunks (n k : nat) (r : list Z) : list (list Z) :=
  match k with
  | O => []
  | S k' => take n r :: chunks n k' (drop n r)
  end.

(** A row on its own: the slice that covers a list of [n] bytes. *)
Definition rowSlice (n : Z) : slice := {| base := 0; len := n; cap := n |}.

(** One iteration seen on the list of rows of [Pix]: row [y] is replaced
    by what [unpack] makes of it. *)
Definition stepRow (unpack : list Z → slice → list Z → option (list Z))
    (yc : Z * list Z) (rs : list (list Z)) : option (list (list Z)) :=
  seg ← rs !! Z.to_nat yc.1;
  seg' ← unpack yc.2 (rowSlice (Z.of_nat (length seg))) seg;
  Some (<[Z.to_nat yc.1 := seg']> rs).

(** The four bytes of pixel [(x, y)] of an [image.RGBA] or [image.NRGBA]
    buffer, at [PixOffset(x, y)]. *)
Definition pixelBytes (b : Buf) (x y : Z) : list Z :=
  sub (Pix b) (y * Stride b + x * 4) (y * Stride b + x * 4 + 4).

(** [pix] is [pre ++ seg ++ post], with a row [seg] of [n] bytes. *)
Definition inRow (pre post : list Z) (n : Z) (pix seg : list Z) : Prop :=
  pix = pre ++ seg ++ post ∧ Z.of_nat (length seg) = n.

(** [unpack] acts on the row its slice covers and on nothing else: on
    [Pix] it does what it does on the row alone. *)
Definition local (unpack : list Z → slice → list Z → option (list Z)) : Prop :=
  ∀ tmp p pre seg post,
    base p = Z.of_nat (length pre) → len p = Z.of_nat (length seg) →
    option_Forall2 (inRow pre post (len p))
      (unpack tmp p (pre ++ seg ++ post)) (unpack tmp (rowSlice (len p)) seg).

(** The colour table [decodeConfig] builds from the scratch buffer. *)
Definition colorTableOf (t : list Z) (numColor : Z) : list RGBA :=
  (λ i, {| R := t !!! Z.to_nat (4 * i + 2);
           G := t !!! Z.to_nat (4 * i + 1);
           B := t !!! Z.to_nat (4 * i);
           A := 0xff |}) <$> seqZ 0 numColor.

(** The size of a padded pixel row as the row loops compute it: the
    length of the slice of [d.tmp] that one iteration reads. *)
Definition rowBytes (bpp w : Z) : Z :=
  if bool_decide (bpp ∈ [1; 4; 8]) then (w * bpp + 31) `quot` 32 * 4
  else if bpp =? 16 then clear3 (w * 2 + 3)
  else clear3 (w * 3 + 3).

(** ** Reading front to back *)

Lemma bind_eq {A B} (m : M A) (f : A → M B) (r : list Z) :
  bind m f r = match m r with
               | (Ok a, r') => f a r'
               | (Err e, r') => (Err e, r')
               | (Panic, r') => (Panic, r')
               end.
Proof. reflexivity. Qed.

Section Streams.
Context {A B : Type}.

Lemma streams_liftR (x : result A) : x ≠ Err io_EOF → streams (liftR x).
Proof.
  intros Hx r. exists 0%nat. unfold liftR. simpl.
  repeat split; try done; try lia.
Qed.

Lemma streams_ret (a : A) : streams (ret a).
Proof. apply (streams_liftR (Ok a)). done. Qed.

Lemma streams_throw (e : error) : e ≠ io_EOF → streams (@throw A e).
Proof. intros He. apply (streams_liftR (Err e)). congruence. Qed.

Lemma streams_panic : streams (@panic A).
Proof. apply (streams_liftR Panic). done. Qed.

Lemma streams_lift (o : option A) : streams (lift o).
Proof. destruct o; [apply streams_ret | apply streams_panic]. Qed.

Lemma streams_bind (m : M A) (f : A → M B) :
  streams m → (∀ a, streams (f a)) → streams (bind m f).
Proof.
  intros Hm Hf r. destruct (Hm r) as (c & Hc & Hr & Hge & Hlt & Hne).
  unfold bind. destruct (m r) as [[a|e|] r1] eqn:E; simpl in *; subst r1.
  - destruct (Hf a (drop c r)) as (c2 & Hc2 & Hr2 & Hge2 & Hlt2 & Hne2).
    rewrite length_drop in Hc2.
    exists (c + c2)%nat. split; [lia|]. split; [by rewrite Hr2, drop_drop|].
    split; [|split; [|done]].
    + intros k Hk. rewrite (Hge k) by lia.
      replace (drop c (take k r)) with (take (k - c) (drop c r))
        by (rewrite take_drop_commute; f_equal; f_equal; lia).
      rewrite (Hge2 (k - c)%nat) by lia. f_equal.
      rewrite take_drop_commute, drop_drop. f_equal. f_equal. lia.
    + intros k Hk. destruct (decide (k < c)%nat) as [Hkc|Hkc].
      * specialize (Hlt k Hkc). by destruct (m (take k r)) as [[?|?|] ?]; simplify_eq/=.
      * rewrite (Hge k) by lia.
        replace (drop c (take k r)) with (take (k - c) (drop c r))
          by (rewrite take_drop_commute; f_equal; f_equal; lia).
        apply Hlt2. lia.
  - exists c. repeat split; try done.
    + intros k Hk. by rewrite (Hge k Hk).
    + intros k Hk. specialize (Hlt k Hk).
      by destruct (m (take k r)) as [[?|?|] ?]; simplify_eq/=.
    + intros [= ->]. by apply Hne.
  - exists c. repeat split; try done.
    + intros k Hk. by rewrite (Hge k Hk).
    + intros k Hk. specialize (Hlt k Hk).
      by destruct (m (take k r)) as [[?|?|] ?]; simplify_eq/=.
Qed.
End Streams.

Lemma wrapEOF_short (l : list Z) :
  wrapEOF (match l with [] => io_EOF | _ => io_ErrUnexpectedEOF end)
  = io_ErrUnexpectedEOF.
Proof. by destruct l. Qed.

(** Both reads of the decoder: [use buf] is what the caller does with the
    bytes. *)
Lemma streams_ReadFull {A} (n : nat) (use : list Z → A) :
  streams (λ r, match io_ReadFull n r with
                | (buf, None, r') => (Ok (use buf), r')
                | (_, Some err, r') => (Err (wrapEOF err), r')
                end).
Proof.
  intros r. unfold io_ReadFull.
  destruct (decide (n ≤ length r)%nat) as [Hn|Hn].
  - exists n. simpl. repeat split; try done.
    + intros k Hk. rewrite decide_True by (rewrite length_take; lia).
      by rewrite take_take, Nat.min_l by lia.
    + intros k Hk. rewrite decide_False by (rewrite length_take; lia).
      simpl. by rewrite wrapEOF_short.
  - exists (length r). simpl. rewrite drop_all. repeat split; try done.
    + intros k Hk. rewrite take_ge by lia. by rewrite decide_False, drop_all.
    + intros k Hk. rewrite decide_False by (rewrite length_take; lia).
      simpl. by rewrite wrapEOF_short.
    + rewrite wrapEOF_short. done.
Qed.

Lemma streams_readTmp (lo hi : Z) (d : decoder) : streams (readTmp lo hi d).
Proof.
  unfold readTmp.
  destruct (negb _).
  - apply (@streams_panic decoder).
  - apply (streams_ReadFull _ (λ buf, set_tmp (_ ++ buf ++ _) d)).
Qed.

Lemma streams_readPix (q : slice) (pix : list Z) : streams (readPix q pix).
Proof. apply (streams_ReadFull _ (λ buf, _ ++ buf ++ _)). Qed.

Lemma streams_forM {A S} (body : A → S → M S) (l : list A) :
  (∀ x s, streams (body x s)) → ∀ s, streams (forM body l s).
Proof.
  intros Hbody. induction l as [|x l IH]; intros s; simpl.
  - apply streams_ret.
  - apply streams_bind; auto.
Qed.

Create HintDb stream.
#[local] Hint Resolve streams_ret streams_panic streams_lift streams_readTmp
  streams_readPix : stream.
#[local] Hint Extern 1 (streams (throw _)) =>
  (apply streams_throw; discriminate) : stream.

Ltac stream_step :=
  match goal with
  | |- streams (bind _ _) => apply streams_bind; [|intros]
  | |- streams (forM _ _ _) => apply streams_forM; intros
  | |- streams (match ?x with _ => _ end) => destruct x
  | |- streams _ => solve [auto with stream]
  end.

Lemma checkHeader_not_EOF (dibLen : Z) (d : decoder) :
  checkHeader dibLen d ≠ Err io_EOF.
Proof. unfold checkHeader. repeat case_match; discriminate. Qed.

Lemma streams_readHeader (d : decoder) : streams (readHeader d).
Proof.
  unfold readHeader. repeat stream_step.
  apply streams_liftR, checkHeader_not_EOF.
Qed.

Lemma streams_decodeConfig (d : decoder) : streams (decodeConfig d).
Proof.
  unfold decodeConfig. apply streams_bind; [apply streams_readHeader|].
  intros. repeat stream_step.
Qed.

Lemma streams_rows n stride unpack (d : decoder) (pix : list Z) :
  streams (rows n stride unpack d pix).
Proof. unfold rows. repeat stream_step. Qed.

Lemma streams_decode (d : decoder) : streams (decode d).
Proof.
  unfold decode. apply streams_bind; [apply streams_decodeConfig|].
  intros d'.
  unfold decodePalleted, decodePalleted_fill, decode16, decode16_fill,
    decode24, decode24_fill, decode32, decode32_fill.
  repeat first [ apply streams_rows | stream_step ].
Qed.

(** An input cut short inside the part the decoder reads: [r] is any
    input, [Decode] consumes some number of its bytes, and the input
    handed over is [r] cut to fewer bytes than that.  [Decode] then
    returns [io.ErrUnexpectedEOF], not [io.EOF], and a nil image.  This
    covers each read the decoder reaches; it says nothing of an input on
    which the decoder panics before it reads that far. *)
Theorem Decode_cut_short (r : list Z) (k : nat) :
  (k < consumed r (Decode r).2)%nat →
  (Decode (take k r)).1 = Returns (None, Some io_ErrUnexpectedEOF).
Proof.
  intros Hk. destruct (streams_decode new_decoder r) as (c & Hc & Hr & _ & Hlt & _).
  unfold consumed, Decode in *.
  assert (Hk' : (k < c)%nat).
  { destruct (decode new_decoder r) as [[?|?|] ?]; simpl in *; subst;
      rewrite length_drop in Hk; lia. }
  specialize (Hlt k Hk').
  by destruct (decode new_decoder (take k r)) as [[?|?|] ?]; simplify_eq/=.
Qed.

(** [Decode] and [DecodeConfig] never pass [io.EOF] on. *)
Lemma Decode_never_EOF (r : list Z) (img : option Image) :
  (Decode r).1 ≠ Returns (img, Some io_EOF).
Proof.
  destruct (streams_decode new_decoder r) as (c & _ & _ & _ & _ & Hne).
  unfold Decode. destruct (decode new_decoder r) as [[?|?|] ?]; simpl in *; congruence.
Qed.

(** The 6x4 test bitmap has 78 bytes; cut to 70 it ends inside the third
    pixel row. *)
Lemma Decode_cut_short_witness :
  (70 < consumed bmp1_6x4 (Decode bmp1_6x4).2)%nat
  ∧ (Decode (take 70 bmp1_6x4)).1 = Returns (None, Some io_ErrUnexpectedEOF).
Proof.
  split; [vm_compute; lia|].
  apply (Decode_cut_short bmp1_6x4 70). vm_compute. lia.
Defined.

(** The same for [DecodeConfig], which reads the header and the colour
    table. *)
Theorem DecodeConfig_cut_short (r : list Z) (k : nat) :
  (k < consumed r (DecodeConfig r).2)%nat →
  (DecodeConfig (take k r)).1
  = Returns ({| ColorModel := None; Width := 0; Height := 0 |},
             Some io_ErrUnexpectedEOF).
Proof.
  intros Hk.
  destruct (streams_decodeConfig new_decoder r) as (c & Hc & Hr & _ & Hlt & _).
  unfold consumed, DecodeConfig in *.
  assert (Hk' : (k < c)%nat).
  { destruct (decodeConfig new_decoder r) as [[?|?|] ?]; simpl in *; subst;
      rewrite length_drop in Hk; lia. }
  specialize (Hlt k Hk').
  by destruct (decodeConfig new_decoder (take k r)) as [[?|?|] ?]; simplify_eq/=.
Qed.

(** The test bitmap cut to 58 bytes ends inside its colour table. *)
Lemma DecodeConfig_cut_short_witness :
  (58 < consumed bmp1_6x4 (DecodeConfig bmp1_6x4).2)%nat
  ∧ (DecodeConfig (take 58 bmp1_6x4)).1
    = Returns ({| ColorModel := None; Width := 0; Height := 0 |},
               Some io_ErrUnexpectedEOF).
Proof.
  split; [vm_compute; lia|].
  apply (DecodeConfig_cut_short bmp1_6x4 58). vm_compute. lia.
Defined.

(** Neither public function passes [io.EOF] on, whatever the input. *)
Theorem never_io_EOF (r : list Z) (img : option Image) (cfg : Config) :
  (Decode r).1 ≠ Returns (img, Some io_EOF)
  ∧ (DecodeConfig r).1 ≠ Returns (cfg, Some io_EOF).
Proof.
  split.
  - destruct (streams_decode new_decoder r) as (c & _ & _ & _ & _ & Hne).
    unfold Decode.
    destruct (decode new_decoder r) as [[?|?|] ?]; simpl in *; congruence.
  - destruct (streams_decodeConfig new_decoder r) as (c & _ & _ & _ & _ & Hne).
    unfold DecodeConfig.
    destruct (decodeConfig new_decoder r) as [[?|?|] ?]; simpl in *; congruence.
Qed.
(** ** The header *)

Lemma readTmp_ok (lo hi : Z) (d : decoder) (r : list Z) :
  0 ≤ lo ≤ hi → hi ≤ Z.of_nat (length (tmp d)) → hi - lo ≤ Z.of_nat (length r) →
  readTmp lo hi d r
  = (Ok (set_tmp (take (Z.to_nat lo) (tmp d) ++ take (Z.to_nat (hi - lo)) r
                  ++ drop (Z.to_nat hi) (tmp d)) d),
     drop (Z.to_nat (hi - lo)) r).
Proof.
  intros Hlo Hhi Hr. unfold readTmp, io_ReadFull.
  replace ((0 <=? lo) && (lo <=? hi) && (hi <=? _)) with true
    by (symmetry; rewrite !andb_true_iff, !Z.leb_le; lia).
  simpl. by rewrite decide_True by lia.
Qed.

Lemma readTmp_short (lo hi : Z) (d : decoder) (r : list Z) :
  0 ≤ lo ≤ hi → hi ≤ Z.of_nat (length (tmp d)) → Z.of_nat (length r) < hi - lo →
  (readTmp lo hi d r).1 = Err io_ErrUnexpectedEOF.
Proof.
  intros Hlo Hhi Hr. unfold readTmp, io_ReadFull.
  replace ((0 <=? lo) && (lo <=? hi) && (hi <=? _)) with true
    by (symmetry; rewrite !andb_true_iff, !Z.leb_le; lia).
  simpl. rewrite decide_False by lia. simpl. by rewrite wrapEOF_short.
Qed.

Lemma readTmp_panic (lo hi : Z) (d : decoder) (r : list Z) :
  Z.of_nat (length (tmp d)) < hi → readTmp lo hi d r = (Panic, r).
Proof.
  intros Hhi. unfold readTmp.
  replace (hi <=? _) with false by (symmetry; apply Z.leb_gt; lia).
  by rewrite andb_false_r.
Qed.

(** Reading [a[lo:hi]] sees only the elements [lo..hi-1]. *)
Lemma sub_app_take (n : nat) (s t : list Z) (lo hi : Z) :
  0 ≤ lo ≤ hi → hi ≤ Z.of_nat n → (n ≤ length s)%nat →
  sub (take n s ++ t) lo hi = sub s lo hi.
Proof.
  intros Hlo Hhi Hn. unfold sub.
  rewrite drop_app_le by (rewrite length_take; lia).
  rewrite take_app_le by (rewrite length_drop, length_take; lia).
  rewrite skipn_firstn_comm, take_take. f_equal. lia.
Qed.

Lemma supportedDibLen_range (n : Z) :
  supportedDibLen n = true → 40 ≤ n ≤ 124.
Proof.
  unfold supportedDibLen. rewrite bool_decide_eq_true, !elem_of_cons, elem_of_nil.
  lia.
Qed.

(** [readHeader] on an input that holds a whole header with the "BM"
    signature and a supported length: both reads succeed and the checks
    run on the header bytes. *)
Lemma readHeader_run (d : decoder) (s : list Z) :
  length (tmp d) = Z.to_nat tmpLen →
  sub s 0 2 = [0x42; 0x4d] →
  supportedDibLen (hdrDibLen s) = true →
  fileHeaderLen + hdrDibLen s ≤ Z.of_nat (length s) →
  readHeader d s
  = (checkHeader (hdrDibLen s)
       (set_tmp (hdrTmp (fileHeaderLen + hdrDibLen s) s (tmp d)) d),
     drop (Z.to_nat (fileHeaderLen + hdrDibLen s)) s).
Proof.
  intros Ht Hsig Hsup Hlen. pose proof (supportedDibLen_range _ Hsup) as Hdl.
  unfold fileHeaderLen, tmpLen in *.
  unfold readHeader, bind, fileHeaderLen. change (14 + 4) with 18.
  rewrite readTmp_ok by lia. cbn [tmp set_tmp].
  change (Z.to_nat 0) with 0%nat. rewrite take_0, app_nil_l.
  change (Z.to_nat (18 - 0)) with 18%nat. change (Z.to_nat 18) with 18%nat.
  rewrite !(sub_app_take 18) by lia.
  rewrite Hsig. rewrite bool_decide_true by done. cbn [negb].
  fold (hdrDibLen s). rewrite Hsup. cbn [negb].
  rewrite readTmp_ok; cbn [tmp set_tmp];
    rewrite ?length_app, ?length_take, ?length_drop; try lia.
  unfold liftR. f_equal.
  - f_equal. unfold set_tmp, hdrTmp. cbn. f_equal.
    rewrite take_app_le, take_take by (rewrite length_take; lia).
    rewrite Nat.min_l by lia.
    rewrite drop_app_ge by (rewrite length_take; lia).
    rewrite length_take, drop_drop.
    rewrite app_assoc. f_equal.
    + replace (Z.to_nat (14 + hdrDibLen s)) with (18 + Z.to_nat (14 + hdrDibLen s - 18))%nat by lia.
      by rewrite take_take_drop.
    + f_equal. lia.
  - rewrite drop_drop. f_equal. lia.
Qed.

Lemma sub_hdrTmp (n : Z) (s t : list Z) (lo hi : Z) :
  0 ≤ lo ≤ hi → hi ≤ n → n ≤ Z.of_nat (length s) →
  sub (hdrTmp n s t) lo hi = sub s lo hi.
Proof. intros. unfold hdrTmp. apply sub_app_take; lia. Qed.

(** Otherwise [readHeader] fails in one of its reads or on the signature
    or on the header length. *)
Lemma readHeader_early (d : decoder) (s : list Z) :
  length (tmp d) = Z.to_nat tmpLen →
  ¬ (sub s 0 2 = [0x42; 0x4d] ∧ supportedDibLen (hdrDibLen s) = true
     ∧ fileHeaderLen + hdrDibLen s ≤ Z.of_nat (length s)) →
  ∃ e, (readHeader d s).1 = Err e ∧ earlierCheck e.
Proof.
  intros Ht Hnot. unfold fileHeaderLen, tmpLen in *.
  unfold readHeader, bind, fileHeaderLen. change (14 + 4) with 18.
  destruct (decide (Z.of_nat (length s) < 18)) as [Hs|Hs].
  { pose proof (readTmp_short 0 18 d s) as H.
    destruct (readTmp 0 18 d s) as [[?|?|] ?]; simpl in H;
      try (discriminate H; lia); [].
    exists io_ErrUnexpectedEOF. split; [|done]. apply H; lia. }
  rewrite readTmp_ok by lia. cbn [tmp set_tmp].
  change (Z.to_nat 0) with 0%nat. rewrite take_0, app_nil_l.
  change (Z.to_nat (18 - 0)) with 18%nat. change (Z.to_nat 18) with 18%nat.
  rewrite !(sub_app_take 18) by lia. fold (hdrDibLen s).
  case_bool_decide as Hsig; cbn [negb]; [|by eexists].
  destruct (supportedDibLen (hdrDibLen s)) eqn:Hsup; cbn [negb]; [|by eexists].
  pose proof (supportedDibLen_range _ Hsup) as Hdl.
  assert (Hlen : Z.of_nat (length s) < 14 + hdrDibLen s) by (apply Z.nle_gt; tauto).
  pose proof (readTmp_short 18 (14 + hdrDibLen s)
                (set_tmp (take 18 s ++ drop 18 (tmp d)) d) (drop 18 s)) as H.
  cbn [tmp set_tmp] in H.
  rewrite length_app, length_take, !length_drop in H.
  destruct (readTmp 18 _ _ _) as [[?|?|] ?]; simpl in *;
    try (discriminate H; lia); [].
  exists io_ErrUnexpectedEOF. split; [|done]. apply H; lia.
Qed.

Lemma length_tmp_new_decoder : length (tmp new_decoder) = Z.to_nat tmpLen.
Proof. apply length_replicate. Qed.

(** The header parser on an input that none of its earlier checks
    rejects (the two reads, the signature, the header length, the size,
    the compression): when the bit depth is indexed and the offset field
    is not [fileHeaderLen + dibLen + numColor*4], or the bit depth is
    direct-colour and the offset field is not [fileHeaderLen + dibLen],
    it fails with the bad-offset error. *)
Lemma offset_mismatch_after_checks (s : list Z) :
  (∀ e, (readHeader new_decoder s).1 = Err e → ¬ earlierCheck e) →
  (hdrBpp s ∈ [1; 4; 8]
   ∧ hdrOffset s ≠ fileHeaderLen + hdrDibLen s + hdrNumColor s * 4)
  ∨ (hdrBpp s ∈ [16; 24; 32]
     ∧ hdrOffset s ≠ fileHeaderLen + hdrDibLen s) →
  (readHeader new_decoder s).1 = Err (ErrOffset (hdrOffset s)).
Proof.
  intros Hno Hoff.
  destruct (decide (sub s 0 2 = [0x42; 0x4d] ∧ supportedDibLen (hdrDibLen s) = true
                    ∧ fileHeaderLen + hdrDibLen s ≤ Z.of_nat (length s)))
    as [(Hsig & Hsup & Hlen)|Hnot].
  2: { destruct (readHeader_early new_decoder s length_tmp_new_decoder Hnot)
         as (e & He & Hearly). by destruct (Hno e He). }
  rewrite readHeader_run in * by auto using length_tmp_new_decoder.
  pose proof (supportedDibLen_range _ Hsup) as Hdl.
  cbn [fst] in *. revert Hno. unfold checkHeader, fileHeaderLen in *.
  set (T := hdrTmp _ _ _).
  assert (HT : ∀ lo hi, 0 ≤ lo ≤ hi → hi ≤ 54 → sub T lo hi = sub s lo hi)
    by (intros; apply sub_hdrTmp; lia).
  cbn [tmp width height set_width set_height set_tmp].
  destruct (int32 (Uint32 (sub T 22 26)) <? 0);
    cbn [tmp width height bpp numColor set_width set_height set_topDown set_bpp
         set_numColor set_tmp];
    rewrite (HT 10 14), (HT 28 30), (HT 46 50) by lia;
    fold (hdrBpp s) (hdrOffset s) (hdrNumColor s);
    repeat case_match; intros Hno;
    try (by destruct (Hno _ eq_refl));
    try done;
    repeat match goal with
      | H : negb _ = false |- _ => apply negb_false_iff in H
      | H : (_ =? _) = true |- _ => apply Z.eqb_eq in H
      | H : bool_decide _ = true |- _ => apply bool_decide_eq_true in H
      | H : bool_decide _ = false |- _ => apply bool_decide_eq_false in H
      end;
    rewrite ?elem_of_cons, ?elem_of_nil in *; lia.
Qed.

(** The header of the 6x4 test bitmap with offset field 63 in place of
    62. *)
Lemma offset_mismatch_after_checks_witness :
  (readHeader new_decoder hdr_bad_offset).1 = Err (ErrOffset 63).
Proof.
  change 63 with (hdrOffset hdr_bad_offset).
  apply (offset_mismatch_after_checks hdr_bad_offset).
  - vm_compute. intros e [= <-]. tauto.
  - left. split; [|vm_compute; discriminate].
    change (hdrBpp hdr_bad_offset) with 1. apply list_elem_of_here.
Defined.

(** C6.  An input with a header that is well-formed but for its offset
    field: the "BM" signature, a supported header length, the whole
    header present, a positive width, a non-zero height, a compression
    code that the parser lets pass.  When the bit depth is 1, 4 or 8 and
    the offset field is not [fileHeaderLen + dibLen + numColor*4], or
    the bit depth is 16, 24 or 32 and the offset field is not
    [fileHeaderLen + dibLen], the header parser fails with the
    bad-offset error, which carries the offset field, and so do both
    public functions. *)
Theorem C6_bad_offset_rejected (s : list Z) :
  sub s 0 2 = [0x42; 0x4d] →
  hdrDibLen s ∈ [40; 52; 60; 96; 108; 112; 120; 124] →
  fileHeaderLen + hdrDibLen s ≤ Z.of_nat (length s) →
  0 < hdrWidth s → hdrHeight s ≠ 0 → compressionAccepted s →
  (hdrBpp s ∈ [1; 4; 8]
   ∧ hdrOffset s ≠ fileHeaderLen + hdrDibLen s + hdrNumColor s * 4)
  ∨ (hdrBpp s ∈ [16; 24; 32]
     ∧ hdrOffset s ≠ fileHeaderLen + hdrDibLen s) →
  let rest := drop (Z.to_nat (fileHeaderLen + hdrDibLen s)) s in
  readHeader new_decoder s = (Err (ErrOffset (hdrOffset s)), rest)
  ∧ DecodeConfig s
    = (Returns ({| ColorModel := None; Width := 0; Height := 0 |},
                Some (ErrOffset (hdrOffset s))), rest)
  ∧ Decode s = (Returns (None, Some (ErrOffset (hdrOffset s))), rest).
Proof.
  intros Hsig Hdl Hlen Hw Hh Hcomp Hoff rest.
  assert (Hsup : supportedDibLen (hdrDibLen s) = true)
    by (by apply bool_decide_eq_true).
  pose proof (supportedDibLen_range _ Hsup) as Hrange.
  assert (Hrun : readHeader new_decoder s = (Err (ErrOffset (hdrOffset s)), rest)).
  { rewrite readHeader_run by auto using length_tmp_new_decoder.
    fold rest. f_equal.
    unfold compressionAccepted, hdrMask, hdrCompression in Hcomp.
    cbn zeta in Hcomp. revert Hcomp.
    unfold checkHeader, fileHeaderLen in *.
    set (T := hdrTmp _ _ _).
    assert (HT : ∀ lo hi, 0 ≤ lo ≤ hi → hi ≤ 54 → sub T lo hi = sub s lo hi)
      by (intros; apply sub_hdrTmp; lia).
    cbn [tmp width height set_width set_height set_tmp].
    rewrite (HT 18 22), (HT 22 26) by lia. fold (hdrWidth s) (hdrHeight s).
    destruct (hdrHeight s <? 0) eqn:Hneg;
      cbn [tmp width height bpp numColor set_width set_height set_topDown set_bpp
           set_numColor set_tmp];
      rewrite (HT 10 14), (HT 28 30), (HT 30 34), (HT 46 50) by lia;
      fold (hdrBpp s) (hdrOffset s) (hdrNumColor s);
      (replace ((hdrWidth s <=? 0) || (_ =? 0)) with false
         by (symmetry; apply orb_false_iff; split;
             [apply Z.leb_gt; lia | apply Z.eqb_neq; lia]));
      intros Hcomp;
      match goal with
      | |- context [negb (?c =? 0)] =>
          assert (c = 0) as ->
      end;
      try (destruct Hcomp as [->|[(-> & Hl & -> & ->)|(-> & ->)]];
           [by case_match
           |by rewrite (proj2 (Z.ltb_lt _ _) Hl)
           |by rewrite orb_true_r]);
      cbn [Z.eqb negb];
      destruct Hoff as [[Hb Ho]|[Hb Ho]].
    all: try (rewrite bool_decide_true by done;
              by rewrite (proj2 (Z.eqb_neq _ _) Ho)).
    all: rewrite bool_decide_false
           by (rewrite !elem_of_cons, elem_of_nil in *; lia);
         rewrite bool_decide_true by done;
         by rewrite (proj2 (Z.eqb_neq _ _) Ho). }
  split; [done|].
  unfold DecodeConfig, Decode, decode, decodeConfig.
  by rewrite !bind_eq, Hrun.
Qed.

(** The header of the test bitmap with offset field 63 in place of 62. *)
Lemma C6_bad_offset_witness :
  readHeader new_decoder hdr_bad_offset
  = (Err (ErrOffset 63), drop 54 hdr_bad_offset).
Proof.
  refine (proj1 (C6_bad_offset_rejected hdr_bad_offset _ _ _ _ _ _ _)).
  - vm_compute. reflexivity.
  - change (hdrDibLen hdr_bad_offset) with 40. apply list_elem_of_here.
  - vm_compute. discriminate.
  - vm_compute. reflexivity.
  - vm_compute. discriminate.
  - left. vm_compute. reflexivity.
  - left. split.
    + change (hdrBpp hdr_bad_offset) with 1. apply list_elem_of_here.
    + vm_compute. discriminate.
Defined.
(** ** The repository's test *)

Example TestDecode :
  fst (Decode bmp1_6x4)
  = Returns (Some (PalettedImage
                     {| Pix := [1; 0; 1; 0; 0; 1; 0; 1; 0; 0; 1; 0;
                                1; 0; 0; 1; 0; 1; 0; 1; 0; 0; 1; 0];
                        Stride := 6; MaxX := 6; MaxY := 4 |}
                     [mkRGBA 0 0 0 0xff; mkRGBA 0xff 0xff 0xff 0xff]),
             None).
Proof. vm_compute. reflexivity. Qed.

(** ** Direct-colour inputs: what [Decode] returns *)

(** C1.  [Decode] on a complete, valid 24-bit bitmap returns [(nil, nil)]:
    no error and no image, whereas the claim promises the decoded image.
    [decode24] fills its local [rgba] (here with the pixel [30 20 10 ff])
    and returns without the assignment [d.image = ...] that
    [decodePalleted] ends with; [decode16] does the same. *)
Theorem C1_Decode_direct_color_returns_nil :
  Decode bmp24_1x1 = (Returns (None, None), [])
  ∧ filled (decode24_fill (afterConfig bmp24_1x1).1 (afterConfig bmp24_1x1).2)
    = Some (RGBAImage {| Pix := [0x30; 0x20; 0x10; 0xff];
                         Stride := 4; MaxX := 1; MaxY := 1 |})
  ∧ Decode (bmp16_1x1 0 0) = (Returns (None, None), []).
Proof. vm_compute. auto. Qed.

(** C2.  A header with compression code 1, 32 bits per pixel and masks
    whose XOR is [0x00ffffff] is accepted: [&&] binds tighter than [||]
    in the condition of line 74, so the 32-bit alternative stands alone
    and clears any compression code.  The claim requires the
    unsupported-compression error, the code being neither 0 nor 3. *)
Theorem C2_compression_1_accepted :
  DecodeConfig hdr32_rle
  = (Returns ({| ColorModel := Some RGBAModel; Width := 1; Height := 1 |}, None), []).
Proof. vm_compute. reflexivity. Qed.

(** C3.  A 16-bit pixel whose only set bits are the five blue bits:
    bits 10-14 in the layout of the specification (word [0x7c00], bytes
    [00 7c]), bits 0-4 in the 555 layout of the format (word [0x001f],
    bytes [1f 00]).  [decode16] builds the pixel [1e 01 00 ff] for the
    first and [00 38 03 ff] for the second; the claim requires
    [00 00 f8 ff]. *)
Theorem C3_decode16_blue_pixel :
  filled (decode16_fill (afterConfig (bmp16_1x1 0x00 0x7c)).1
                        (afterConfig (bmp16_1x1 0x00 0x7c)).2)
  = Some (RGBAImage {| Pix := [0x1e; 0x01; 0x00; 0xff];
                       Stride := 4; MaxX := 1; MaxY := 1 |})
  ∧ filled (decode16_fill (afterConfig (bmp16_1x1 0x1f 0x00)).1
                          (afterConfig (bmp16_1x1 0x1f 0x00)).2)
    = Some (RGBAImage {| Pix := [0x00; 0x38; 0x03; 0xff];
                         Stride := 4; MaxX := 1; MaxY := 1 |}).
Proof. vm_compute. auto. Qed.

(** C4.  In a 16x1 1-bit bitmap with source bytes [00 ff] the eight
    pixels of byte 1 belong at positions 8..15.  The store of line 167
    is [p[i*2+j]], so they land at positions 2..9, over the pixels of
    byte 0, and positions 10..15 are never written.  The factor [2] is
    [8/bpp] only for 4 bits per pixel. *)
Theorem C4_decodePalleted_misplaces_pixels :
  fst (Decode bmp1_16x1)
  = Returns (Some (PalettedImage
                     {| Pix := [0; 0; 1; 1; 1; 1; 1; 1; 1; 1; 0; 0; 0; 0; 0; 0];
                        Stride := 16; MaxX := 16; MaxY := 1 |}
                     [mkRGBA 0 0 0 0xff; mkRGBA 0xff 0xff 0xff 0xff]),
             None).
Proof. vm_compute. reflexivity. Qed.

(** C9.  [Decode] on a valid 32-bit 1x1 bitmap panics, and the four
    pixel bytes are still unread.  For row [y] the read of line 248
    fills [p[y*Stride : y*(Stride+1)]], which has [y] elements: none for
    [y == 0].  The loop of line 255 then runs [i] over every byte of
    the row, not over every fourth, and [p[i+2]] leaves the row at
    [i == 2]. *)
Theorem C9_Decode_32bit_panics :
  Decode bmp32_1x1 = (Panics, [0x10; 0x20; 0x30; 0x40]).
Proof. vm_compute. reflexivity. Qed.

(** C10.  Three inputs on which the public functions panic:
    - a palette of 256 entries, read into [d.tmp[:1024]] while [d.tmp]
      has [3 * 256] bytes;
    - an 8-bit 1x1 bitmap, where line 167 stores to [p[2]] in a row of
      one byte;
    - a 32-bit 1x1 bitmap, where line 257 loads [p[4]] in a row of four
      bytes. *)
Theorem C10_public_functions_panic :
  fst (DecodeConfig bmp8_256) = Panics
  ∧ fst (Decode bmp8_256) = Panics
  ∧ fst (Decode bmp8_1x1) = Panics
  ∧ fst (Decode bmp32_1x1) = Panics.
Proof. vm_compute. auto. Qed.

(** C7.  Three inputs that end before a read the format requires, on
    which [Decode] panics where the claim requires
    [io.ErrUnexpectedEOF]:
    - a 32-bit 1x1 bitmap cut after its header: line 248 reads the empty
      slice [p[0:0]], which succeeds, and line 257 loads [p[4]];
    - a bitmap with 256 colours cut inside its colour table: the slice
      [d.tmp[:1024]] of line 113 panics before the read;
    - an 8-bit 1x2 bitmap without its second row: line 167 stores to
      [p[2]] in the first row, before the second is read. *)
Theorem C7_truncated_input_panics :
  Decode (take 54 bmp32_1x1) = (Panics, [])
  ∧ (Decode (take 60 bmp8_256)).1 = Panics
  ∧ (Decode (take 62 bmp8_1x2)).1 = Panics.
Proof. vm_compute. auto. Qed.

(** C8.  A valid 24-bit bitmap of two pixels, [10 20 30] and
    [40 50 60]: [decode24] arranges them as [30 20 10 ff] and
    [60 50 40 ff] in its local buffer, and [Decode] returns [(nil, nil)],
    so that no pixel of a returned image holds them.  A 24-bit bitmap
    257 pixels wide makes [Decode] panic: its row does not fit [d.tmp]. *)
Theorem C8_decode24_pixels_not_returned :
  filled (decode24_fill (afterConfig bmp24_2x1).1 (afterConfig bmp24_2x1).2)
  = Some (RGBAImage {| Pix := [0x30; 0x20; 0x10; 0xff; 0x60; 0x50; 0x40; 0xff];
                       Stride := 8; MaxX := 2; MaxY := 1 |})
  ∧ Decode bmp24_2x1 = (Returns (None, None), [])
  ∧ (Decode (mkHeader 54 40 257 1 24 0 0 [] ++ replicate 772 0)).1 = Panics.
Proof. vm_compute. auto. Qed.
(** ** Loops *)

Lemma foldM_app {A S} (body : A → S → option S) (l1 l2 : list A) (s : S) :
  foldM body (l1 ++ l2) s = foldM body l1 s ≫= foldM body l2.
Proof.
  revert s. induction l1 as [|x l1 IH]; intros s; simpl; [done|].
  destruct (body x s); simpl; auto.
Qed.

Lemma foldM_ext {A S} (f g : A → S → option S) (l : list A) (s : S) :
  (∀ x s, x ∈ l → f x s = g x s) → foldM f l s = foldM g l s.
Proof.
  revert s. induction l as [|x l IH]; intros s Hfg; simpl; [done|].
  rewrite Hfg by left. destruct (g x s); [|done].
  apply IH. intros. apply Hfg. by right.
Qed.

(** A loop fails if one of its iterations fails in every state. *)
Lemma foldM_fails {A S} (body : A → S → option S) (l : list A) (x : A) (s : S) :
  x ∈ l → (∀ s, body x s = None) → foldM body l s = None.
Proof.
  intros Hx Hnone. apply list_elem_of_split in Hx as (l1 & l2 & ->).
  rewrite foldM_app. destruct (foldM body l1 s); simpl; [|done].
  by rewrite Hnone.
Qed.

(** Two loops that keep their states related. *)
Lemma foldM_sim {A S T} (Rel : S → T → Prop) (f : A → S → option S)
    (g : A → T → option T) (l : list A) :
  (∀ x s t, Rel s t → option_Forall2 Rel (f x s) (g x t)) →
  ∀ s t, Rel s t → option_Forall2 Rel (foldM f l s) (foldM g l t).
Proof.
  intros Hfg. induction l as [|x l IH]; intros s t Hst; simpl.
  - by constructor.
  - destruct (Hfg x s t Hst); [by apply IH | constructor].
Qed.

Lemma bind_sim {S T} (Rel : S → T → Prop) (o1 : option S) (o2 : option T)
    (f : S → option S) (g : T → option T) :
  option_Forall2 Rel o1 o2 →
  (∀ s t, Rel s t → option_Forall2 Rel (f s) (g t)) →
  option_Forall2 Rel (o1 ≫= f) (o2 ≫= g).
Proof. intros [s t Hst|] Hfg; simpl; [by apply Hfg | constructor]. Qed.

(** The loop [for k := 0; k < n; k++] with an invariant. *)
Lemma foldM_seqZ_inv {St} (body : Z → St → option St) (Inv : Z → St → Prop)
    (n : Z) (s : St) :
  0 ≤ n → Inv 0 s →
  (∀ k s, 0 ≤ k < n → Inv k s → ∃ s', body k s = Some s' ∧ Inv (k + 1) s') →
  ∃ s', foldM body (seqZ 0 n) s = Some s' ∧ Inv n s'.
Proof.
  intros Hn H0 Hstep.
  assert (∀ m : nat, Z.of_nat m ≤ n →
            ∃ s', foldM body (seqZ 0 (Z.of_nat m)) s = Some s' ∧ Inv (Z.of_nat m) s')
    as Hm.
  { induction m as [|m IH]; intros Hle.
    - exists s. by split.
    - destruct IH as (s1 & Hs1 & Hinv); [lia|].
      destruct (Hstep (Z.of_nat m) s1) as (s2 & Hs2 & Hinv2); [lia|done|].
      exists s2. rewrite seqZ_S, foldM_app, Hs1. simpl.
      rewrite Z.add_0_l, Hs2. split; [done|].
      by replace (Z.of_nat (S m)) with (Z.of_nat m + 1) by lia. }
  destruct (Hm (Z.to_nat n)) as (s' & Hs' & Hinv); [lia|].
  rewrite Z2Nat.id in * by lia. eauto.
Qed.

(** ** Row loops

    An iteration of [rows] on an input that holds the next padded row. *)
Lemma rows_body_run (n stride : Z) unpack (y : Z) (d : decoder) (pix r : list Z) :
  0 ≤ n ≤ Z.of_nat (length (tmp d)) → n ≤ Z.of_nat (length r) →
  (do d <- readTmp 0 n d;
   do p <- lift (reslice (whole pix) (y * stride) ((y + 1) * stride));
   do pix <- lift (unpack (tmp d) p pix);
   ret (d, pix)) r
  = let t := take (Z.to_nat n) r ++ drop (Z.to_nat n) (tmp d) in
    match onRow stride unpack t y pix with
    | Some pix' => (Ok (set_tmp t d, pix'), drop (Z.to_nat n) r)
    | None => (Panic, drop (Z.to_nat n) r)
    end.
Proof.
  intros Hn Hr. unfold bind at 1. rewrite readTmp_ok by lia.
  rewrite Z.sub_0_r. change (Z.to_nat 0) with 0%nat. rewrite take_0, app_nil_l.
  cbn [tmp set_tmp]. unfold onRow, bind, lift.
  destruct (reslice _ _ _) as [p|]; simpl; [|done].
  by destruct (unpack _ p pix).
Qed.

Lemma length_chunks (n k : nat) (r : list Z) : length (chunks n k r) = k.
Proof. revert r. induction k; intros; simpl; auto. Qed.

Lemma chunks_concat (n : nat) (rs : list (list Z)) (rest : list Z) :
  Forall (λ c, length c = n) rs →
  chunks n (length rs) (concat rs ++ rest) = rs.
Proof.
  induction 1 as [|c rs Hc _ IH]; simpl; [done|].
  rewrite <- app_assoc, take_app_length', drop_app_length' by done.
  by rewrite IH.
Qed.

Lemma lookup_chunks (n k t : nat) (r : list Z) :
  (t < k)%nat → chunks n k r !! t = Some (take n (drop (t * n) r)).
Proof.
  revert t r. induction k as [|k IH]; intros t r Ht; [lia|].
  destruct t as [|t]; simpl; [done|].
  rewrite IH by lia. by rewrite drop_drop.
Qed.

(** The row loop on an input that holds all the rows it reads: the reads
    succeed, and the loop returns unless an unpacking step panics. *)
Lemma rows_forM_run (n stride : Z) unpack (ys : list Z) (tail : list Z) :
  ∀ (d : decoder) (pix r : list Z),
  0 ≤ n ≤ Z.of_nat (length (tmp d)) →
  drop (Z.to_nat n) (tmp d) = tail →
  n * Z.of_nat (length ys) ≤ Z.of_nat (length r) →
  let loop :=
    forM (λ y '(d, pix),
            do d <- readTmp 0 n d;
            do p <- lift (reslice (whole pix) (y * stride) ((y + 1) * stride));
            do pix <- lift (unpack (tmp d) p pix);
            ret (d, pix)) ys (d, pix) r in
  match foldM (λ yc pix, onRow stride unpack (yc.2 ++ tail) yc.1 pix)
              (zip ys (chunks (Z.to_nat n) (length ys) r)) pix with
  | Some pix' =>
      ∃ d', loop = (Ok (d', pix'), drop (Z.to_nat n * length ys) r)
            ∧ topDown d' = topDown d ∧ width d' = width d
            ∧ height d' = height d ∧ image d' = image d ∧ config d' = config d
            ∧ bpp d' = bpp d
  | None => loop.1 = Panic
  end.
Proof.
  induction ys as [|y ys IH]; intros d pix r Hn Htail Hr; simpl.
  - exists d. by rewrite Nat.mul_0_r.
  - simpl in Hr. rewrite bind_eq.
    rewrite rows_body_run by lia. cbn zeta. rewrite Htail.
    destruct (onRow _ _ _ y pix) as [pix1|]; [|done].
    specialize (IH (set_tmp (take (Z.to_nat n) r ++ tail) d) pix1 (drop (Z.to_nat n) r)).
    cbn [tmp set_tmp] in IH.
    assert (Hlen : length (take (Z.to_nat n) r ++ tail) = length (tmp d)).
    { rewrite <- Htail, length_app, length_take, length_drop. lia. }
    rewrite Hlen in IH.
    assert (Hdrop : drop (Z.to_nat n) (take (Z.to_nat n) r ++ tail) = tail).
    { apply drop_app_length'. rewrite length_take. lia. }
    specialize (IH Hn Hdrop). rewrite length_drop in IH.
    cbn zeta in IH. destruct (foldM _ _ pix1) as [pix'|].
    + destruct IH as (d' & Hloop & Hd'); [lia|].
      exists d'. rewrite Hloop, drop_drop. split; [|done].
      do 2 f_equal. lia.
    + apply IH. lia.
Qed.

(** If the row loop returns, the input held the rows. *)
Lemma rows_forM_ok_length (n stride : Z) unpack (ys : list Z) :
  ∀ (d : decoder) (pix r : list Z) x r',
  0 ≤ n → ys ≠ [] →
  forM (λ y '(d, pix),
          do d <- readTmp 0 n d;
          do p <- lift (reslice (whole pix) (y * stride) ((y + 1) * stride));
          do pix <- lift (unpack (tmp d) p pix);
          ret (d, pix)) ys (d, pix) r = (Ok x, r') →
  n ≤ Z.of_nat (length (tmp d))
  ∧ n * Z.of_nat (length ys) ≤ Z.of_nat (length r).
Proof.
  induction ys as [|y ys IH]; intros d pix r x r' Hn Hne; [done|].
  simpl. unfold bind at 1. unfold bind at 1.
  destruct (decide (n ≤ Z.of_nat (length (tmp d)))) as [Ht|Ht];
    [|by rewrite readTmp_panic by lia].
  destruct (decide (n ≤ Z.of_nat (length r))) as [Hr|Hr].
  2: { pose proof (readTmp_short 0 n d r) as H.
       destruct (readTmp 0 n d r) as [[?|?|] ?]; try done.
       simpl in H. discriminate H; lia. }
  rewrite readTmp_ok by lia. cbn [tmp set_tmp].
  destruct (bind (lift _) _ _) as [[[d1 pix1]|?|] r1] eqn:E; try done.
  intros Hloop. split; [done|].
  destruct ys as [|y' ys]; [simpl; lia|].
  apply IH in Hloop as [_ Hlen]; [|done..].
  unfold bind, lift in E.
  destruct (reslice _ _ _); simpl in E; [|done].
  destruct (unpack _ _ _); simpl in E; [|done].
  unfold ret in E. simplify_eq. rewrite length_drop in Hlen.
  rewrite Z.sub_0_r in *. simpl length in *. lia.
Qed.
(** ** Stores into a row *)

Lemma store_sim (pre post : list Z) (p : slice) (pix seg : list Z) (k v : Z) :
  base p = Z.of_nat (length pre) →
  inRow pre post (len p) pix seg →
  option_Forall2 (inRow pre post (len p))
    (store pix p k v) (store seg (rowSlice (len p)) k v).
Proof.
  intros Hbase [-> Hlen]. unfold store, rowSlice. cbn [base len].
  destruct ((0 <=? k) && (k <? len p)) eqn:Hk; [|constructor].
  apply andb_true_iff in Hk as [Hk1%Z.leb_le Hk2%Z.ltb_lt].
  constructor. split; [|rewrite length_insert; lia].
  replace (Z.to_nat (base p + k)) with (length pre + Z.to_nat k)%nat by lia.
  rewrite insert_app_r, insert_app_l by lia. by rewrite Z.add_0_l.
Qed.

Ltac sim_step :=
  match goal with
  | |- option_Forall2 _ (at_ ?t ?i ≫= _) _ => destruct (at_ t i); simpl
  | |- option_Forall2 _ (store _ _ _ _ ≫= _) _ =>
      apply bind_sim; [by apply store_sim | intros]
  | |- option_Forall2 _ (store _ _ _ _) _ => by apply store_sim
  | |- option_Forall2 _ None None => constructor
  end.

Lemma local_unpack24 (w : Z) : local (unpack24 w).
Proof.
  intros tmp p pre seg post Hbase Hlen. unfold unpack24.
  apply foldM_sim; [|done]. intros k s t Hst. repeat sim_step.
Qed.

Lemma local_unpack16 (w : Z) : local (unpack16 w).
Proof.
  intros tmp p pre seg post Hbase Hlen. unfold unpack16.
  apply foldM_sim; [|done]. intros k s t Hst. repeat sim_step.
Qed.

Lemma local_unpackPalleted (w bpp : Z) : local (unpackPalleted w bpp).
Proof.
  intros tmp p pre seg post Hbase Hlen. unfold unpackPalleted.
  destruct (w <? 8 `quot` bpp).
  - apply foldM_sim; [|done]. intros k s t Hst. repeat sim_step.
  - apply foldM_sim; [|done]. intros i s t Hst.
    apply foldM_sim; [|done]. intros j s' t' Hst'. repeat sim_step.
Qed.

(** What locality gives in equations. *)
Lemma local_eq unpack tmp (p : slice) (pre seg post : list Z) :
  local unpack →
  base p = Z.of_nat (length pre) → len p = Z.of_nat (length seg) →
  unpack tmp p (pre ++ seg ++ post)
  = (λ seg', pre ++ seg' ++ post) <$> unpack tmp (rowSlice (len p)) seg
  ∧ ∀ seg', unpack tmp (rowSlice (len p)) seg = Some seg' →
            length seg' = length seg.
Proof.
  intros Hloc Hbase Hlen.
  destruct (Hloc tmp p pre seg post Hbase Hlen) as [pix' seg' [-> Hl]|]; simpl.
  - split; [done|]. intros ? [= <-]. lia.
  - done.
Qed.

(** ** [Pix] as a list of rows *)

Lemma length_concat_rows (n : nat) (rs : list (list Z)) :
  Forall (λ row, length row = n) rs → length (concat rs) = (length rs * n)%nat.
Proof. induction 1 as [|row rs Hrow _ IH]; simpl; [done|]. rewrite length_app. lia. Qed.

Lemma concat_replicate_rows (n h : nat) :
  concat (replicate h (replicate n 0)) = replicate (h * n) 0.
Proof.
  induction h as [|h IH]; simpl; [done|]. by rewrite IH, replicate_add.
Qed.

(** An iteration on [Pix] is the iteration on its rows. *)
Lemma onRow_stepRow unpack (n : nat) (tmp : list Z) (y : Z) (rs : list (list Z)) :
  local unpack → (0 < n)%nat → 0 ≤ y →
  Forall (λ row, length row = n) rs →
  onRow (Z.of_nat n) unpack tmp y (concat rs)
  = (λ x, concat x) <$> stepRow unpack (y, tmp) rs
  ∧ ∀ rs', stepRow unpack (y, tmp) rs = Some rs' →
           Forall (λ row, length row = n) rs' ∧ length rs' = length rs.
Proof.
  intros Hloc Hn Hy Hrs. unfold onRow, stepRow. cbn [fst snd].
  pose proof (length_concat_rows n rs Hrs) as Hlen.
  destruct (rs !! Z.to_nat y) as [seg|] eqn:Hseg; simpl.
  - pose proof (lookup_lt_Some _ _ _ Hseg) as Hlt.
    assert (Hsegn : length seg = n)
      by (apply (Forall_lookup_1 (λ row, length row = n) rs _ _ Hrs Hseg)).
    unfold reslice, whole. cbn [base len cap].
    replace ((0 <=? y * Z.of_nat n) && (y * Z.of_nat n <=? (y + 1) * Z.of_nat n)
             && ((y + 1) * Z.of_nat n <=? Z.of_nat (length (concat rs))))
      with true by (symmetry; rewrite !andb_true_iff, !Z.leb_le; nia).
    simpl.
    set (p := {| base := 0 + y * Z.of_nat n;
                 len := (y + 1) * Z.of_nat n - y * Z.of_nat n;
                 cap := Z.of_nat (length (concat rs)) - y * Z.of_nat n |}).
    assert (Hrows : concat rs
                    = concat (take (Z.to_nat y) rs) ++ seg
                      ++ concat (drop (S (Z.to_nat y)) rs)).
    { rewrite <- (take_drop_middle rs _ seg Hseg) at 1.
      by rewrite concat_app, concat_cons. }
    assert (Hpre : base p = Z.of_nat (length (concat (take (Z.to_nat y) rs)))).
    { rewrite (length_concat_rows n) by (by apply Forall_take).
      rewrite length_take. cbn. nia. }
    assert (Hlenp : len p = Z.of_nat (length seg)) by (cbn; nia).
    rewrite Hrows at 1.
    destruct (local_eq unpack tmp p _ seg (concat (drop (S (Z.to_nat y)) rs))
                Hloc Hpre Hlenp) as [-> Hl].
    rewrite Hlenp in Hl |- *. clearbody p.
    destruct (unpack tmp (rowSlice (Z.of_nat (length seg))) seg) as [seg'|];
      simpl; [|by split].
    split.
    + f_equal. rewrite insert_take_drop by done.
      by rewrite concat_app, concat_cons.
    + intros ? [= <-]. rewrite length_insert. split; [|done].
      apply Forall_insert; [done|]. rewrite (Hl seg') by done. done.
  - split; [|done]. apply lookup_ge_None in Hseg.
    unfold reslice, whole. cbn [base len cap].
    replace ((y + 1) * Z.of_nat n <=? Z.of_nat (length (concat rs))) with false
      by (symmetry; apply Z.leb_gt; nia).
    by rewrite andb_false_r.
Qed.

Lemma rows_fold_concat unpack (n : nat) (tail : list Z) (l : list (Z * list Z)) :
  local unpack → (0 < n)%nat → Forall (λ yc, 0 ≤ yc.1) l →
  ∀ rs, Forall (λ row, length row = n) rs →
  foldM (λ yc pix, onRow (Z.of_nat n) unpack (yc.2 ++ tail) yc.1 pix) l (concat rs)
  = (λ x, concat x) <$> foldM (λ yc, stepRow unpack (yc.1, yc.2 ++ tail)) l rs.
Proof.
  intros Hloc Hn Hl. induction Hl as [|[y c] l Hy _ IH]; intros rs Hrs; [done|].
  cbn [foldM fst snd] in *.
  destruct (onRow_stepRow unpack n (c ++ tail) y rs Hloc Hn Hy Hrs) as [-> Hpres].
  destruct (stepRow unpack _ rs) as [rs'|]; simpl; [|done].
  apply IH. by apply Hpres.
Qed.
(** ** Reading slices and rows *)

Lemma take_drop_4 (a : list Z) (n : nat) (v0 v1 v2 v3 : Z) :
  a !! n = Some v0 → a !! (n + 1)%nat = Some v1 → a !! (n + 2)%nat = Some v2 →
  a !! (n + 3)%nat = Some v3 →
  take 4 (drop n a) = [v0; v1; v2; v3].
Proof.
  intros H0 H1 H2 H3.
  rewrite (drop_S _ _ _ H0). replace (S n) with (n + 1)%nat by lia.
  rewrite (drop_S _ _ _ H1). replace (S (n + 1)) with (n + 2)%nat by lia.
  rewrite (drop_S _ _ _ H2). replace (S (n + 2)) with (n + 3)%nat by lia.
  rewrite (drop_S _ _ _ H3). done.
Qed.

Lemma take_drop_3 (a : list Z) (n : nat) (v0 v1 v2 : Z) :
  a !! n = Some v0 → a !! (n + 1)%nat = Some v1 → a !! (n + 2)%nat = Some v2 →
  take 3 (drop n a) = [v0; v1; v2].
Proof.
  intros H0 H1 H2.
  rewrite (drop_S _ _ _ H0). replace (S n) with (n + 1)%nat by lia.
  rewrite (drop_S _ _ _ H1). replace (S (n + 1)) with (n + 2)%nat by lia.
  rewrite (drop_S _ _ _ H2). done.
Qed.

Lemma sub_insert_ge (a : list Z) (lo hi : Z) (i : nat) (v : Z) :
  0 ≤ lo ≤ hi → hi ≤ Z.of_nat i → sub (<[i:=v]> a) lo hi = sub a lo hi.
Proof.
  intros Hlo Hhi. unfold sub.
  rewrite !take_drop_commute. by rewrite take_insert_ge by lia.
Qed.

Lemma at_lt (a : list Z) (i : Z) :
  0 ≤ i < Z.of_nat (length a) → at_ a i = Some (a !!! Z.to_nat i).
Proof.
  intros Hi. unfold at_. rewrite (proj2 (Z.leb_le 0 i)) by lia.
  apply list_lookup_lookup_total_lt. lia.
Qed.

Lemma store_row (s : list Z) (n k v : Z) :
  0 ≤ k < n → store s (rowSlice n) k v = Some (<[Z.to_nat k := v]> s).
Proof.
  intros Hk. unfold store, rowSlice. cbn [base len].
  rewrite (proj2 (Z.leb_le 0 k)), (proj2 (Z.ltb_lt k n)) by lia.
  by rewrite Z.add_0_l.
Qed.

Lemma clear3_eq (x : Z) : clear3 x = x `div` 4 * 4.
Proof.
  unfold clear3. change 3 with (Z.ones 2).
  rewrite Z.ldiff_ones_r by lia. by rewrite Z.shiftl_mul_pow2, Z.shiftr_div_pow2 by lia.
Qed.

(** ** One 24-bit row *)

Lemma unpack24_spec (w : Z) (tmp seg : list Z) :
  0 ≤ w → Z.of_nat (length seg) = 4 * w → 3 * w ≤ Z.of_nat (length tmp) →
  ∃ seg', unpack24 w tmp (rowSlice (4 * w)) seg = Some seg'
    ∧ ∀ x, 0 ≤ x < w →
        sub seg' (x * 4) (x * 4 + 4)
        = [tmp !!! Z.to_nat (x * 3 + 2); tmp !!! Z.to_nat (x * 3 + 1);
           tmp !!! Z.to_nat (x * 3); 0xff].
Proof.
  intros Hw Hseg Htmp. unfold unpack24.
  destruct (foldM_seqZ_inv
    (λ k pix, let i := 4 * k in let j := 3 * k in
       r ← at_ tmp (j + 2); pix ← store pix (rowSlice (4 * w)) i r;
       g ← at_ tmp (j + 1); pix ← store pix (rowSlice (4 * w)) (i + 1) g;
       b ← at_ tmp j; pix ← store pix (rowSlice (4 * w)) (i + 2) b;
       store pix (rowSlice (4 * w)) (i + 3) 0xff)
    (λ k s, Z.of_nat (length s) = 4 * w
            ∧ ∀ x, 0 ≤ x < k →
                sub s (x * 4) (x * 4 + 4)
                = [tmp !!! Z.to_nat (x * 3 + 2); tmp !!! Z.to_nat (x * 3 + 1);
                   tmp !!! Z.to_nat (x * 3); 0xff])
    w seg Hw) as (seg' & Hrun & _ & Hpix).
  - split; [done|]. intros; lia.
  - intros k s Hk [Hlen Hdone]. cbn zeta.
    rewrite !at_lt by lia. simpl.
    repeat (rewrite store_row by lia; simpl).
    eexists. split; [done|]. split; [by rewrite !length_insert|].
    intros x Hx. destruct (decide (x = k)) as [->|Hne].
    + unfold sub. replace (Z.to_nat (k * 4 + 4 - k * 4)) with 4%nat by lia.
      replace (Z.to_nat (k * 4)) with (Z.to_nat (4 * k)) by lia.
      apply take_drop_4.
      * rewrite !list_lookup_insert_ne by lia.
        rewrite list_lookup_insert_eq by lia. do 3 f_equal; lia.
      * rewrite !list_lookup_insert_ne by lia.
        replace (Z.to_nat (4 * k) + 1)%nat with (Z.to_nat (4 * k + 1)) by lia.
        rewrite list_lookup_insert_eq by (rewrite !length_insert; lia).
        do 3 f_equal; lia.
      * rewrite !list_lookup_insert_ne by lia.
        replace (Z.to_nat (4 * k) + 2)%nat with (Z.to_nat (4 * k + 2)) by lia.
        rewrite list_lookup_insert_eq by (rewrite !length_insert; lia).
        do 3 f_equal; lia.
      * replace (Z.to_nat (4 * k) + 3)%nat with (Z.to_nat (4 * k + 3)) by lia.
        rewrite list_lookup_insert_eq by (rewrite !length_insert; lia). done.
    + rewrite !sub_insert_ge by lia. apply Hdone. lia.
  - exists seg'. split; [exact Hrun | exact Hpix].
Qed.

(** ** The order of the rows *)

Lemma for_y_up (fuel : nat) (y : Z) :
  for_y fuel y (y + Z.of_nat fuel) 1 = seqZ y (Z.of_nat fuel).
Proof.
  revert y. induction fuel as [|fuel IH]; intros y; [done|].
  cbn [for_y]. rewrite (proj2 (Z.eqb_neq _ _)) by lia.
  rewrite seqZ_cons by lia. f_equal.
  replace (y + Z.of_nat (S fuel)) with (y + 1 + Z.of_nat fuel) by lia.
  rewrite IH. f_equal; lia.
Qed.

Lemma for_y_down (fuel : nat) (y : Z) :
  for_y fuel y (y - Z.of_nat fuel) (-1)
  = reverse (seqZ (y - Z.of_nat fuel + 1) (Z.of_nat fuel)).
Proof.
  revert y. induction fuel as [|fuel IH]; intros y; [done|].
  cbn [for_y]. rewrite (proj2 (Z.eqb_neq _ _)) by lia.
  rewrite seqZ_S, reverse_snoc. f_equal; [lia|].
  replace (y - Z.of_nat (S fuel)) with (y + -1 - Z.of_nat fuel) by lia.
  apply IH.
Qed.

(** The loop header visits the rows [0 .. height-1] top-down and
    [height-1 .. 0] otherwise, and leaves on [y == y1]. *)
Lemma rowOrder_spec (d : decoder) :
  0 ≤ height d →
  rowOrder d = if topDown d then seqZ 0 (height d) else reverse (seqZ 0 (height d)).
Proof.
  intros Hh. unfold rowOrder. destruct (topDown d).
  - rewrite <- (Z2Nat.id (height d)) at 2 3 by done. apply (for_y_up _ 0).
  - pose proof (for_y_down (Z.to_nat (height d)) (height d - 1)) as H.
    rewrite Z2Nat.id in H by done.
    replace (height d - 1 - height d) with (-1) in H by lia.
    by replace (height d - 1 - height d + 1) with 0 in H by lia.
Qed.

Lemma rowOrder_lookup (d : decoder) (y : Z) :
  0 ≤ y < height d →
  rowOrder d !! Z.to_nat (if topDown d then y else height d - 1 - y) = Some y.
Proof.
  intros Hy. rewrite rowOrder_spec by lia. destruct (topDown d).
  - rewrite lookup_seqZ_lt by lia. f_equal. lia.
  - rewrite reverse_lookup by (rewrite length_seqZ; lia).
    rewrite length_seqZ, lookup_seqZ_lt by lia. f_equal. lia.
Qed.

Lemma length_rowOrder (d : decoder) :
  0 ≤ height d → length (rowOrder d) = Z.to_nat (height d).
Proof.
  intros Hh. rewrite rowOrder_spec by done.
  destruct (topDown d); by rewrite ?length_reverse, length_seqZ.
Qed.

Lemma NoDup_rowOrder (d : decoder) :
  0 ≤ height d → NoDup (Z.to_nat <$> rowOrder d).
Proof.
  intros Hh. rewrite rowOrder_spec by done.
  assert (NoDup (Z.to_nat <$> seqZ 0 (height d))) as Hnd.
  { apply NoDup_fmap_2_strong; [|apply NoDup_seqZ].
    intros a b Ha%elem_of_seqZ Hb%elem_of_seqZ. lia. }
  destruct (topDown d); [done|].
  by rewrite fmap_reverse, reverse_Permutation.
Qed.

Lemma rowOrder_nonneg (d : decoder) :
  0 ≤ height d → Forall (λ y, 0 ≤ y) (rowOrder d).
Proof.
  intros Hh. rewrite rowOrder_spec by done. apply Forall_forall. intros y Hy.
  destruct (topDown d); [|rewrite elem_of_reverse in Hy];
    apply elem_of_seqZ in Hy; lia.
Qed.

(** ** The rows after the loop *)

Lemma foldM_fmap {A B St} (g : A → B) (f : B → St → option St) (l : list A) (s : St) :
  foldM (λ x, f (g x)) l s = foldM f (g <$> l) s.
Proof.
  revert s. induction l as [|x l IH]; intros s; simpl; [done|].
  destruct (f (g x) s); auto.
Qed.

Lemma foldM_stepRow_spec unpack (l : list (Z * list Z)) :
  ∀ rs rs', NoDup (Z.to_nat <$> l.*1) →
  foldM (stepRow unpack) l rs = Some rs' →
  length rs' = length rs
  ∧ (∀ i, i ∉ (Z.to_nat <$> l.*1) → rs' !! i = rs !! i)
  ∧ (∀ t y c, l !! t = Some (y, c) →
       ∃ seg seg', rs !! Z.to_nat y = Some seg
         ∧ unpack c (rowSlice (Z.of_nat (length seg))) seg = Some seg'
         ∧ rs' !! Z.to_nat y = Some seg').
Proof.
  induction l as [|[y c] l IH]; intros rs rs' Hnd Hf.
  - simpl in Hf. injection Hf as <-. repeat split; done.
  - rewrite !fmap_cons in Hnd. cbn [fst] in Hnd.
    apply NoDup_cons in Hnd as [Hy Hnd]. simpl in Hf.
    destruct (stepRow unpack (y, c) rs) as [rs1|] eqn:E; [|done].
    unfold stepRow in E. cbn [fst snd] in E.
    destruct (rs !! Z.to_nat y) as [seg|] eqn:Hseg; [|done]. simpl in E.
    destruct (unpack c _ seg) as [seg'|] eqn:Hun; [|done]. simpl in E.
    injection E as <-.
    destruct (IH _ _ Hnd Hf) as (Hlen & Hframe & Hpts).
    rewrite length_insert in Hlen. split; [done|]. split.
    + intros i Hi. rewrite !fmap_cons in Hi. cbn [fst] in Hi.
      apply not_elem_of_cons in Hi as [Hne Hi].
      rewrite Hframe by done. by rewrite list_lookup_insert_ne.
    + intros t y0 c0 Ht. destruct t as [|t]; simpl in Ht.
      * injection Ht as <- <-. exists seg, seg'. split; [done|]. split; [done|].
        rewrite Hframe by done. apply list_lookup_insert_eq.
        by apply lookup_lt_Some in Hseg.
      * destruct (Hpts t y0 c0 Ht) as (seg0 & seg0' & H1 & H2 & H3).
        exists seg0, seg0'. split; [|done].
        rewrite list_lookup_insert_ne in H1; [done|].
        intros Heq. apply Hy. rewrite Heq.
        apply list_elem_of_fmap. exists y0. split; [done|].
        apply list_elem_of_fmap. exists (y0, c0). split; [done|].
        by eapply list_elem_of_lookup_2.
Qed.

Lemma foldM_stepRow_lengths unpack (n : nat) (l : list (Z * list Z)) :
  local unpack →
  ∀ rs rs', Forall (λ row, length row = n) rs →
  foldM (stepRow unpack) l rs = Some rs' →
  Forall (λ row, length row = n) rs'.
Proof.
  intros Hloc. induction l as [|[y c] l IH]; intros rs rs' Hrs Hf; simpl in Hf.
  - by injection Hf as <-.
  - destruct (stepRow unpack (y, c) rs) as [rs1|] eqn:E; [|done].
    apply (IH rs1); [|done].
    unfold stepRow in E. cbn [fst snd] in E.
    destruct (rs !! Z.to_nat y) as [seg|] eqn:Hseg; [|done]. simpl in E.
    destruct (unpack c _ seg) as [seg'|] eqn:Hun; [|done]. simpl in E.
    injection E as <-. apply Forall_insert; [done|].
    pose proof (Forall_lookup_1 (λ row, length row = n) rs _ _ Hrs Hseg) as Hn.
    simpl in Hn.
    destruct (local_eq unpack c (rowSlice (Z.of_nat (length seg))) [] seg []
                Hloc eq_refl eq_refl) as [_ Hl].
    cbn [len rowSlice] in Hl. by rewrite (Hl _ Hun).
Qed.

Lemma sub_concat_row (n : nat) (rs : list (list Z)) (y : nat) (seg : list Z)
    (lo hi : Z) :
  Forall (λ row, length row = n) rs → rs !! y = Some seg →
  0 ≤ lo ≤ hi → hi ≤ Z.of_nat n →
  sub (concat rs) (Z.of_nat y * Z.of_nat n + lo) (Z.of_nat y * Z.of_nat n + hi)
  = sub seg lo hi.
Proof.
  intros Hrs Hseg Hlo Hhi.
  pose proof (Forall_lookup_1 (λ row, length row = n) rs _ _ Hrs Hseg) as Hn.
  simpl in Hn.
  pose proof (lookup_lt_Some _ _ _ Hseg) as Hlt.
  rewrite <- (take_drop_middle rs _ seg Hseg), concat_app, concat_cons.
  assert (Hpre : length (concat (take y rs)) = (y * n)%nat).
  { rewrite (length_concat_rows n) by (by apply Forall_take).
    rewrite length_take. lia. }
  unfold sub.
  rewrite drop_app_ge by lia. rewrite drop_app_le by lia.
  rewrite take_app_le by (rewrite length_drop; lia).
  f_equal; [lia|]. f_equal. lia.
Qed.

Lemma sub_chunk (n t : nat) (r tail : list Z) (lo hi : Z) :
  0 ≤ lo ≤ hi → hi ≤ Z.of_nat n → ((t + 1) * n ≤ length r)%nat →
  sub (take n (drop (t * n) r) ++ tail) lo hi
  = sub r (Z.of_nat t * Z.of_nat n + lo) (Z.of_nat t * Z.of_nat n + hi).
Proof.
  intros Hlo Hhi Hr. rewrite sub_app_take by (rewrite ?length_drop; lia).
  unfold sub. rewrite drop_drop. f_equal; [lia|]. f_equal. lia.
Qed.
(** ** 24-bit pixels *)

Lemma NewBuf_rows (bytesPerPixel w h : Z) :
  0 ≤ bytesPerPixel * w → 0 ≤ h →
  Pix (NewBuf bytesPerPixel w h)
  = concat (replicate (Z.to_nat h) (replicate (Z.to_nat (bytesPerPixel * w)) 0)).
Proof.
  intros Hw Hh. unfold NewBuf. cbn [Pix].
  rewrite concat_replicate_rows. f_equal. nia.
Qed.

Lemma fst_zip_tail (ys : list Z) (cs : list (list Z)) (tail : list Z) :
  (length ys ≤ length cs)%nat →
  ((λ yc : Z * list Z, (yc.1, yc.2 ++ tail)) <$> zip ys cs).*1 = ys.
Proof.
  intros Hlen. rewrite <- list_fmap_compose.
  rewrite <- (fst_zip ys cs) at 2 by done.
  apply list_fmap_ext. by intros i [??] ?.
Qed.

(** The row loop of a local unpacker, when it returns: the input held
    [height] rows of [n] bytes, which the loop has consumed; the decoder
    is as before but for [tmp]; [Pix] is the list of rows [rs'], and the
    row the loop visited in iteration [t] holds what the unpacker made
    of the [t]-th padded row of the input. *)
Lemma rows_ok_full (n bytesPerPixel : Z) unpack (d d' : decoder)
    (pix' r r' : list Z) :
  local unpack → 0 ≤ n → 0 < bytesPerPixel * width d → 0 < height d →
  rows n (Stride (NewBuf bytesPerPixel (width d) (height d))) unpack d
       (Pix (NewBuf bytesPerPixel (width d) (height d))) r
  = (Ok (d', pix'), r') →
  (n ≤ Z.of_nat (length (tmp d))
   ∧ n * height d ≤ Z.of_nat (length r)
   ∧ r' = drop (Z.to_nat (n * height d)) r
   ∧ topDown d' = topDown d ∧ width d' = width d ∧ height d' = height d
   ∧ image d' = image d ∧ config d' = config d ∧ bpp d' = bpp d)
  ∧ ∃ rs', pix' = concat rs'
      ∧ length rs' = Z.to_nat (height d)
      ∧ Forall (λ row, length row = Z.to_nat (bytesPerPixel * width d)) rs'
      ∧ ∀ (t : nat) y, rowOrder d !! t = Some y →
          ∃ seg', rs' !! Z.to_nat y = Some seg'
            ∧ unpack (take (Z.to_nat n) (drop (t * Z.to_nat n) r)
                      ++ drop (Z.to_nat n) (tmp d))
                     (rowSlice (bytesPerPixel * width d))
                     (replicate (Z.to_nat (bytesPerPixel * width d)) 0)
              = Some seg'.
Proof.
  intros Hloc Hn Hw Hh Hrows. unfold rows in Hrows.
  pose proof (length_rowOrder d ltac:(lia)) as Hlen.
  assert (Hne : rowOrder d ≠ []) by (intros E; rewrite E in Hlen; simpl in Hlen; lia).
  destruct (rows_forM_ok_length _ _ _ _ _ _ _ _ _ Hn Hne Hrows) as [Htmp Hr].
  rewrite Hlen in Hr.
  pose proof (rows_forM_run n (Stride (NewBuf bytesPerPixel (width d) (height d)))
                unpack (rowOrder d) (drop (Z.to_nat n) (tmp d)) d
                (Pix (NewBuf bytesPerPixel (width d) (height d))) r
                ltac:(lia) eq_refl ltac:(lia)) as Hrun.
  cbn zeta in Hrun. rewrite Hrows in Hrun.
  destruct (foldM _ _ _) as [pix''|] eqn:Hfold; [|done].
  destruct Hrun as (d'' & [= <- <- ->] & Hfields).
  split.
  { split; [done|]. split; [lia|]. split; [|done].
    f_equal. rewrite Hlen. lia. }
  rewrite NewBuf_rows in Hfold by lia. cbn [Stride NewBuf] in Hfold.
  set (W := Z.to_nat (bytesPerPixel * width d)) in *.
  replace (bytesPerPixel * width d) with (Z.of_nat W) in Hfold by lia.
  assert (Hrs0 : Forall (λ row : list Z, length row = W)
                   (replicate (Z.to_nat (height d)) (replicate W 0))).
  { apply Forall_replicate, length_replicate. }
  rewrite rows_fold_concat in Hfold; [|done|lia| |done].
  2: { apply Forall_forall. intros [y c] Hyc. cbn.
       apply elem_of_zip_l in Hyc.
       by apply (proj1 (Forall_forall _ _) (rowOrder_nonneg d ltac:(lia))). }
  rewrite (foldM_fmap (λ yc : Z * list Z, (yc.1, yc.2 ++ drop (Z.to_nat n) (tmp d)))
             (stepRow unpack)) in Hfold.
  destruct (foldM (stepRow unpack) _ _) as [rs'|] eqn:Hrs; [|done].
  injection Hfold as <-. exists rs'. split; [done|].
  pose proof (foldM_stepRow_lengths _ _ _ Hloc _ _ Hrs0 Hrs) as Hlens.
  apply foldM_stepRow_spec in Hrs as (Hlrs & _ & Hpts).
  2: { rewrite fst_zip_tail by (rewrite length_chunks; lia).
       apply NoDup_rowOrder. lia. }
  rewrite length_replicate in Hlrs.
  split; [done|]. split; [done|].
  intros t y Ht.
  assert (Htlt : (t < length (rowOrder d))%nat) by (by eapply lookup_lt_Some).
  destruct (Hpts t y (take (Z.to_nat n) (drop (t * Z.to_nat n) r)
                      ++ drop (Z.to_nat n) (tmp d))) as (seg & seg' & H1 & H2 & H3).
  { rewrite list_lookup_fmap, lookup_zip_with, Ht. simpl.
    by rewrite lookup_chunks by lia. }
  exists seg'. split; [done|].
  apply lookup_replicate in H1 as [-> _].
  rewrite length_replicate in H2.
  by replace (bytesPerPixel * width d) with (Z.of_nat W) by lia.
Qed.

Lemma rows_ok_rows (n bytesPerPixel : Z) unpack (d d' : decoder)
    (pix' r r' : list Z) :
  local unpack → 0 ≤ n → 0 < bytesPerPixel * width d → 0 < height d →
  rows n (Stride (NewBuf bytesPerPixel (width d) (height d))) unpack d
       (Pix (NewBuf bytesPerPixel (width d) (height d))) r
  = (Ok (d', pix'), r') →
  n ≤ Z.of_nat (length (tmp d))
  ∧ n * height d ≤ Z.of_nat (length r)
  ∧ ∃ rs', pix' = concat rs'
      ∧ Forall (λ row, length row = Z.to_nat (bytesPerPixel * width d)) rs'
      ∧ ∀ (t : nat) y, rowOrder d !! t = Some y →
          ∃ seg', rs' !! Z.to_nat y = Some seg'
            ∧ unpack (take (Z.to_nat n) (drop (t * Z.to_nat n) r)
                      ++ drop (Z.to_nat n) (tmp d))
                     (rowSlice (bytesPerPixel * width d))
                     (replicate (Z.to_nat (bytesPerPixel * width d)) 0)
              = Some seg'.
Proof.
  intros Hloc Hn Hw Hh Hrows.
  destruct (rows_ok_full _ _ _ _ _ _ _ _ Hloc Hn Hw Hh Hrows)
    as ((? & ? & _) & rs' & ? & _ & ? & ?).
  eauto 10.
Qed.

(** Whenever [decode24] completes, pixel [(x, y)] of the buffer it has
    filled holds the three bytes of that pixel in the input, in the
    order R, G, B for the input's B, G, R, unchanged in value, and alpha
    [0xff].  [r] is the input from the first pixel row on; the row of
    [y] is row [y] of the input for a top-down bitmap and row
    [height-1-y] otherwise, rows being [n] bytes apart.  The buffer is
    the local [rgba] of [decode24], which [Decode] does not return. *)
Theorem decode24_copies_bytes (d d' : decoder) (r r' : list Z) (b : Buf)
    (x y : Z) :
  decode24_fill d r = (Ok (d', RGBAImage b), r') →
  0 ≤ x < width d → 0 ≤ y < height d →
  let n := clear3 (width d * 3 + 3) in
  let row := if topDown d then y else height d - 1 - y in
  ∃ bb gg rr,
    sub r (row * n + x * 3) (row * n + x * 3 + 3) = [bb; gg; rr]
    ∧ pixelBytes b x y = [rr; gg; bb; 0xff].
Proof.
  intros Hrun Hx Hy n row. unfold decode24_fill in Hrun.
  rewrite bind_eq in Hrun.
  destruct (rows _ _ _ _ _ _) as [[[d1 pix']|?|] r1] eqn:Hrows; try done.
  unfold ret in Hrun. injection Hrun as <- <- <-.
  assert (Hn : 0 ≤ n ∧ width d * 3 ≤ n).
  { unfold n. rewrite clear3_eq. Z.div_mod_to_equations. lia. }
  fold n in Hrows.
  apply rows_ok_rows in Hrows as (Htmp & Hr & rs' & -> & Hrs' & Hpts);
    [|apply local_unpack24|lia..].
  pose proof (rowOrder_lookup d y Hy) as Hrow. fold row in Hrow.
  assert (Hrow0 : 0 ≤ row < height d) by (unfold row; destruct (topDown d); lia).
  destruct (Hpts _ _ Hrow) as (seg' & Hseg' & Hun).
  set (t := take (Z.to_nat n) (drop (Z.to_nat row * Z.to_nat n) r)
            ++ drop (Z.to_nat n) (tmp d)) in *.
  assert (Ht : Z.of_nat (length t) = Z.of_nat (length (tmp d))).
  { unfold t. rewrite length_app, length_take, !length_drop. nia. }
  destruct (unpack24_spec (width d) t (replicate (Z.to_nat (4 * width d)) 0))
    as (seg'' & Hun' & Hpix); [lia|rewrite length_replicate; lia|lia|].
  rewrite Hun in Hun'. injection Hun' as <-.
  exists (t !!! Z.to_nat (x * 3)), (t !!! Z.to_nat (x * 3 + 1)),
         (t !!! Z.to_nat (x * 3 + 2)).
  split.
  - rewrite <- Z.add_assoc.
    replace (row * n) with (Z.of_nat (Z.to_nat row) * Z.of_nat (Z.to_nat n)) by lia.
    rewrite <- (sub_chunk _ _ _ (drop (Z.to_nat n) (tmp d))) by nia. fold t.
    unfold sub. replace (Z.to_nat (x * 3 + 3 - x * 3)) with 3%nat by lia.
    apply take_drop_3;
      [|replace (Z.to_nat (x * 3) + 1)%nat with (Z.to_nat (x * 3 + 1)) by lia
       |replace (Z.to_nat (x * 3) + 2)%nat with (Z.to_nat (x * 3 + 2)) by lia];
      apply list_lookup_lookup_total_lt; lia.
  - unfold pixelBytes. cbn [Pix Stride NewBuf].
    rewrite <- Z.add_assoc.
    replace (y * (4 * width d))
      with (Z.of_nat (Z.to_nat y) * Z.of_nat (Z.to_nat (4 * width d))) by lia.
    rewrite (sub_concat_row _ _ _ seg') by (done || lia).
    apply Hpix. lia.
Qed.

(** The second pixel of the 2x1 bitmap: bytes [40 50 60] in the input,
    [60 50 40 ff] in the buffer. *)
Lemma decode24_copies_bytes_witness :
  ∃ bb gg rr,
    sub (afterConfig bmp24_2x1).2 3 6 = [bb; gg; rr]
    ∧ pixelBytes {| Pix := [0x30; 0x20; 0x10; 0xff; 0x60; 0x50; 0x40; 0xff];
                    Stride := 8; MaxX := 2; MaxY := 1 |} 1 0
      = [rr; gg; bb; 0xff].
Proof.
  pose (d := (afterConfig bmp24_2x1).1). pose (r := (afterConfig bmp24_2x1).2).
  apply (decode24_copies_bytes d
           (match decode24_fill d r with (Ok (d', _), _) => d' | _ => d end)
           r [] _ 1 0).
  - vm_compute. reflexivity.
  - vm_compute. split; [discriminate|reflexivity].
  - vm_compute. split; [discriminate|reflexivity].
Defined.
(** ** What an accepted header guarantees *)

Lemma checkHeader_ok (dibLen : Z) (d0 d : decoder) :
  checkHeader dibLen d0 = Ok d →
  let T := tmp d0 in
  let h := int32 (Uint32 (sub T 22 26)) in
  width d = int32 (Uint32 (sub T 18 22)) ∧ 0 < width d
  ∧ height d = Z.abs h ∧ 0 < height d
  ∧ topDown d = (if h <? 0 then true else topDown d0)
  ∧ bpp d = Uint16 (sub T 28 30)
  ∧ (bpp d ∈ [1; 4; 8] ∨ bpp d ∈ [16; 24; 32])
  ∧ numColor d = Uint32 (sub T 46 50)
  ∧ Uint32 (sub T 10 14)
    = fileHeaderLen + dibLen
      + (if bool_decide (bpp d ∈ [1; 4; 8]) then numColor d * 4 else 0)
  ∧ tmp d = T ∧ image d = image d0 ∧ config d = config d0.
Proof.
  unfold checkHeader.
  cbn [tmp width height set_width set_height set_tmp].
  destruct (int32 (Uint32 (sub (tmp d0) 22 26)) <? 0) eqn:Hneg;
    cbn [tmp width height bpp numColor topDown image config set_width
         set_height set_topDown set_bpp set_numColor set_tmp];
    repeat case_match; intros [= <-];
    cbn [tmp width height bpp numColor topDown image config set_width
         set_height set_topDown set_bpp set_numColor set_tmp];
    repeat match goal with
      | H : negb _ = false |- _ => apply negb_false_iff in H
      | H : (_ || _) = false |- _ => apply orb_false_iff in H as [? ?]
      | H : (_ =? _) = true |- _ => apply Z.eqb_eq in H
      | H : (_ =? _) = false |- _ => apply Z.eqb_neq in H
      | H : (_ <=? _) = false |- _ => apply Z.leb_gt in H
      | H : (_ <? _) = true |- _ => apply Z.ltb_lt in H
      | H : (_ <? _) = false |- _ => apply Z.ltb_ge in H
      | H : bool_decide _ = true |- _ => apply bool_decide_eq_true in H
      | H : bool_decide _ = false |- _ => apply bool_decide_eq_false in H
      end;
    repeat split; try done; try lia; auto.
Qed.

Lemma readHeader_ok_inv (d0 d : decoder) (s r : list Z) :
  length (tmp d0) = Z.to_nat tmpLen → topDown d0 = false →
  readHeader d0 s = (Ok d, r) →
  sub s 0 2 = [0x42; 0x4d]
  ∧ hdrDibLen s ∈ [40; 52; 60; 96; 108; 112; 120; 124]
  ∧ fileHeaderLen + hdrDibLen s ≤ Z.of_nat (length s)
  ∧ r = drop (Z.to_nat (fileHeaderLen + hdrDibLen s)) s
  ∧ width d = hdrWidth s ∧ 0 < width d
  ∧ height d = Z.abs (hdrHeight s) ∧ 0 < height d
  ∧ topDown d = bool_decide (hdrHeight s < 0)
  ∧ bpp d = hdrBpp s ∧ bpp d ∈ [1; 4; 8; 16; 24; 32]
  ∧ numColor d = hdrNumColor s
  ∧ hdrOffset s
    = fileHeaderLen + hdrDibLen s
      + (if bool_decide (bpp d ∈ [1; 4; 8]) then numColor d * 4 else 0)
  ∧ length (tmp d) = Z.to_nat tmpLen ∧ image d = image d0
  ∧ tmp d = hdrTmp (fileHeaderLen + hdrDibLen s) s (tmp d0).
Proof.
  intros Ht0 Htd0 Hrun.
  destruct (decide (sub s 0 2 = [0x42; 0x4d] ∧ supportedDibLen (hdrDibLen s) = true
                    ∧ fileHeaderLen + hdrDibLen s ≤ Z.of_nat (length s)))
    as [(Hsig & Hsup & Hlen)|Hnot].
  2: { destruct (readHeader_early d0 s Ht0 Hnot) as (e & He & _).
       by rewrite Hrun in He. }
  rewrite readHeader_run in Hrun by done.
  injection Hrun as Hck <-.
  pose proof (supportedDibLen_range _ Hsup) as Hdl.
  apply checkHeader_ok in Hck. cbn zeta in Hck. cbn [tmp set_tmp topDown] in Hck.
  unfold fileHeaderLen in *.
  set (T := hdrTmp _ _ _) in *.
  assert (HT : ∀ lo hi, 0 ≤ lo ≤ hi → hi ≤ 54 → sub T lo hi = sub s lo hi)
    by (intros; apply sub_hdrTmp; lia).
  rewrite !HT in Hck by lia.
  fold (hdrWidth s) (hdrHeight s) (hdrBpp s) (hdrNumColor s) (hdrOffset s) in Hck.
  destruct Hck as (Hw & Hw0 & Hh & Hh0 & Htd & Hb & Hbs & Hnc & Hoff & Htmp & Him & _).
  split; [done|].
  split; [unfold supportedDibLen in Hsup; by apply bool_decide_eq_true in Hsup|].
  split; [done|]. split; [done|]. cbn [image set_tmp] in Him.
  repeat split; try done.
  - rewrite Htd, Htd0.
    destruct (hdrHeight s <? 0) eqn:E; symmetry.
    + apply bool_decide_eq_true. by apply Z.ltb_lt.
    + apply bool_decide_eq_false. apply Z.ltb_ge in E. lia.
  - rewrite !elem_of_cons in *. tauto.
  - rewrite Htmp. unfold T, hdrTmp.
    rewrite length_app, length_take, length_drop, Ht0.
    unfold tmpLen. lia.
Qed.

(** [readHeader] returns without error only on a header with the "BM"
    signature and a supported length that is wholly present; it has then
    consumed exactly that header, and the decoder holds the header's
    fields: a positive width, the absolute value of the height field as
    height, [topDown] exactly for a negative height field, one of the six
    bit depths, and an offset field that equals
    [fileHeaderLen + dibLen], plus [numColor * 4] for an indexed depth. *)
Theorem readHeader_accepts (s r : list Z) (d : decoder) :
  readHeader new_decoder s = (Ok d, r) →
  sub s 0 2 = [0x42; 0x4d]
  ∧ hdrDibLen s ∈ [40; 52; 60; 96; 108; 112; 120; 124]
  ∧ fileHeaderLen + hdrDibLen s ≤ Z.of_nat (length s)
  ∧ r = drop (Z.to_nat (fileHeaderLen + hdrDibLen s)) s
  ∧ width d = hdrWidth s ∧ 0 < width d
  ∧ height d = Z.abs (hdrHeight s) ∧ 0 < height d
  ∧ topDown d = bool_decide (hdrHeight s < 0)
  ∧ bpp d = hdrBpp s ∧ bpp d ∈ [1; 4; 8; 16; 24; 32]
  ∧ numColor d = hdrNumColor s
  ∧ hdrOffset s
    = fileHeaderLen + hdrDibLen s
      + (if bool_decide (bpp d ∈ [1; 4; 8]) then numColor d * 4 else 0).
Proof.
  intros Hrun.
  apply readHeader_ok_inv in Hrun; [|apply length_tmp_new_decoder|done].
  tauto.
Qed.

Lemma readHeader_accepts_witness :
  hdrWidth bmp1_6x4 = 6 ∧ Z.abs (hdrHeight bmp1_6x4) = 4
  ∧ hdrOffset bmp1_6x4 = 62.
Proof.
  pose (x := readHeader new_decoder bmp1_6x4).
  destruct (readHeader_accepts bmp1_6x4 x.2
              (match x.1 with Ok d => d | _ => new_decoder end))
    as (_ & _ & _ & _ & Hw & _ & Hh & _ & _ & _ & _ & _ & Ho).
  { vm_compute. reflexivity. }
  split; [rewrite <- Hw; vm_compute; reflexivity|].
  split; [rewrite <- Hh; vm_compute; reflexivity|].
  rewrite Ho. vm_compute. reflexivity.
Defined.

(** ** Rejected headers *)

(** An input of at least 18 bytes that does not start with "BM": the
    header parser fails with the signature error, which carries the two
    bytes found, and has consumed the 18 bytes of its first read and no
    more.  Both public functions return that error. *)
Lemma readHeader_bad_signature (d : decoder) (s : list Z) :
  length (tmp d) = Z.to_nat tmpLen →
  18 ≤ Z.of_nat (length s) → sub s 0 2 ≠ [0x42; 0x4d] →
  readHeader d s = (Err (ErrSignature (sub s 0 2)), drop 18 s).
Proof.
  intros Ht Hs Hsig. unfold tmpLen in *.
  unfold readHeader, bind, fileHeaderLen. change (14 + 4) with 18.
  rewrite readTmp_ok by lia. cbn [tmp set_tmp].
  change (Z.to_nat 0) with 0%nat. rewrite take_0, app_nil_l.
  change (Z.to_nat (18 - 0)) with 18%nat. change (Z.to_nat 18) with 18%nat.
  rewrite !(sub_app_take 18) by lia.
  by rewrite bool_decide_false by done.
Qed.

Theorem Decode_bad_signature (s : list Z) :
  18 ≤ Z.of_nat (length s) → sub s 0 2 ≠ [0x42; 0x4d] →
  Decode s = (Returns (None, Some (ErrSignature (sub s 0 2))), drop 18 s)
  ∧ DecodeConfig s
    = (Returns ({| ColorModel := None; Width := 0; Height := 0 |},
                Some (ErrSignature (sub s 0 2))), drop 18 s).
Proof.
  intros Hs Hsig.
  pose proof (readHeader_bad_signature new_decoder s length_tmp_new_decoder Hs Hsig)
    as Hrun.
  unfold Decode, DecodeConfig, decode, decodeConfig.
  by rewrite !bind_eq, Hrun.
Qed.

Lemma Decode_bad_signature_witness :
  Decode (replicate 20 0x41)
  = (Returns (None, Some (ErrSignature [0x41; 0x41])), [0x41; 0x41]).
Proof.
  destruct (Decode_bad_signature (replicate 20 0x41)) as [H _].
  - vm_compute. discriminate.
  - vm_compute. discriminate.
  - exact H.
Defined.

(** A "BM" input whose header-length field is none of the eight
    supported values: the parser fails with the header-length error and
    has consumed 18 bytes. *)
Lemma readHeader_bad_dibLen (d : decoder) (s : list Z) :
  length (tmp d) = Z.to_nat tmpLen →
  18 ≤ Z.of_nat (length s) → sub s 0 2 = [0x42; 0x4d] →
  hdrDibLen s ∉ [40; 52; 60; 96; 108; 112; 120; 124] →
  readHeader d s = (Err (ErrDibLen (hdrDibLen s)), drop 18 s).
Proof.
  intros Ht Hs Hsig Hdl. unfold tmpLen in *.
  unfold readHeader, bind, fileHeaderLen. change (14 + 4) with 18.
  rewrite readTmp_ok by lia. cbn [tmp set_tmp].
  change (Z.to_nat 0) with 0%nat. rewrite take_0, app_nil_l.
  change (Z.to_nat (18 - 0)) with 18%nat. change (Z.to_nat 18) with 18%nat.
  rewrite !(sub_app_take 18) by lia. fold (hdrDibLen s).
  rewrite Hsig, bool_decide_true by done. cbn [negb].
  unfold supportedDibLen. by rewrite bool_decide_false by done.
Qed.

Theorem Decode_bad_dibLen (s : list Z) :
  18 ≤ Z.of_nat (length s) → sub s 0 2 = [0x42; 0x4d] →
  hdrDibLen s ∉ [40; 52; 60; 96; 108; 112; 120; 124] →
  Decode s = (Returns (None, Some (ErrDibLen (hdrDibLen s))), drop 18 s)
  ∧ DecodeConfig s
    = (Returns ({| ColorModel := None; Width := 0; Height := 0 |},
                Some (ErrDibLen (hdrDibLen s))), drop 18 s).
Proof.
  intros Hs Hsig Hdl.
  pose proof (readHeader_bad_dibLen new_decoder s length_tmp_new_decoder Hs Hsig Hdl)
    as Hrun.
  unfold Decode, DecodeConfig, decode, decodeConfig.
  by rewrite !bind_eq, Hrun.
Qed.

Lemma Decode_bad_dibLen_witness :
  Decode (mkHeader 26 12 1 1 24 0 0 [])
  = (Returns (None, Some (ErrDibLen 12)), drop 18 (mkHeader 26 12 1 1 24 0 0 [])).
Proof.
  destruct (Decode_bad_dibLen (mkHeader 26 12 1 1 24 0 0 [])) as [H _].
  - vm_compute. discriminate.
  - vm_compute. reflexivity.
  - assert (hdrDibLen (mkHeader 26 12 1 1 24 0 0 []) = 12) as ->
      by (vm_compute; reflexivity).
    rewrite !elem_of_cons, elem_of_nil. lia.
  - exact H.
Defined.
(** ** [decodeConfig] *)

Lemma readTmp_ok_inv (lo hi : Z) (d d' : decoder) (r r' : list Z) :
  readTmp lo hi d r = (Ok d', r') →
  0 ≤ lo ≤ hi ∧ hi ≤ Z.of_nat (length (tmp d))
  ∧ hi - lo ≤ Z.of_nat (length r)
  ∧ d' = set_tmp (take (Z.to_nat lo) (tmp d) ++ take (Z.to_nat (hi - lo)) r
                  ++ drop (Z.to_nat hi) (tmp d)) d
  ∧ r' = drop (Z.to_nat (hi - lo)) r.
Proof.
  unfold readTmp, io_ReadFull.
  destruct ((0 <=? lo) && (lo <=? hi) && (hi <=? _)) eqn:Hb; simpl; [|done].
  apply andb_true_iff in Hb as [[H1%Z.leb_le H2%Z.leb_le]%andb_true_iff H3%Z.leb_le].
  destruct (decide _) as [Hn|Hn]; [|done].
  intros [= <- <-]. repeat split; try done; lia.
Qed.

Lemma decodeConfig_ok_inv (d0 d : decoder) (s r : list Z) :
  length (tmp d0) = Z.to_nat tmpLen → topDown d0 = false →
  decodeConfig d0 s = (Ok d, r) →
  ∃ d1 r1,
    readHeader d0 s = (Ok d1, r1)
    ∧ width d = width d1 ∧ height d = height d1 ∧ bpp d = bpp d1
    ∧ topDown d = topDown d1 ∧ numColor d = numColor d1 ∧ image d = image d1
    ∧ length (tmp d) = Z.to_nat tmpLen
    ∧ ∃ model,
        config d = {| ColorModel := Some model; Width := width d1; Height := height d1 |}
        ∧ ((bpp d1 ∈ [1; 4; 8]
            ∧ 0 ≤ numColor d1 * 4 ≤ tmpLen
            ∧ numColor d1 * 4 ≤ Z.of_nat (length r1)
            ∧ r = drop (Z.to_nat (numColor d1 * 4)) r1
            ∧ model = Palette (colorTableOf (take (Z.to_nat (numColor d1 * 4)) r1)
                                 (numColor d1)))
           ∨ (bpp d1 ∈ [16; 24; 32] ∧ r = r1 ∧ tmp d = tmp d1
              ∧ model = RGBAModel)).
Proof.
  intros Ht0 Htd0 Hrun. unfold decodeConfig in Hrun. rewrite bind_eq in Hrun.
  destruct (readHeader d0 s) as [[d1|?|] r1] eqn:Hhdr; try done.
  exists d1, r1. split; [done|].
  pose proof (readHeader_ok_inv _ _ _ _ Ht0 Htd0 Hhdr)
    as (_ & _ & _ & _ & _ & _ & _ & _ & _ & _ & Hbpp & _ & _ & Htmp & _).
  rewrite bind_eq in Hrun.
  case_bool_decide as Hidx.
  - rewrite bind_eq in Hrun.
    destruct (readTmp 0 _ d1 r1) as [[d2|?|] r2] eqn:Hread; try done.
    apply readTmp_ok_inv in Hread as (Hlo & Hhi & Hlen & -> & ->).
    unfold ret in Hrun. injection Hrun as <- <-.
    rewrite Z.sub_0_r in *.
    cbn [tmp width height bpp numColor topDown image config set_tmp set_config].
    repeat split; try done.
    + rewrite length_app, length_take, length_drop. lia.
    + eexists. split; [done|]. left. rewrite Htmp in Hhi.
      repeat split; try done; try lia.
      f_equal. unfold colorTableOf. apply list_fmap_ext.
      intros i k Hk. apply lookup_seqZ in Hk as [-> Hk].
      f_equal; rewrite !lookup_total_app_l by (rewrite length_take; lia);
        by rewrite lookup_total_take_lt by lia.
  - assert (bpp d1 ∈ [16; 24; 32]) as Hdirect
      by (rewrite !elem_of_cons in *; tauto).
    rewrite bool_decide_true in Hrun by done.
    unfold ret in Hrun. injection Hrun as <- <-.
    cbn [tmp width height bpp numColor topDown image config set_tmp set_config].
    repeat split; try done.
    eexists. split; [done|]. right. done.
Qed.
(** ** 32 bits per pixel *)

Lemma reslice_ok (s : slice) (lo hi : Z) :
  0 ≤ lo ≤ hi → hi ≤ cap s →
  reslice s lo hi
  = Some {| base := base s + lo; len := hi - lo; cap := cap s - lo |}.
Proof.
  intros Hlo Hhi. unfold reslice.
  by rewrite (proj2 (Z.leb_le 0 lo)), (proj2 (Z.leb_le lo hi)),
    (proj2 (Z.leb_le hi (cap s))) by lia.
Qed.

Lemma reslice_fail (s : slice) (lo hi : Z) : cap s < hi → reslice s lo hi = None.
Proof.
  intros Hhi. unfold reslice.
  rewrite (proj2 (Z.leb_gt hi (cap s))) by lia. by rewrite andb_false_r.
Qed.

Lemma load_oob (pix : list Z) (s : slice) (k : Z) :
  len s ≤ k → load pix s k = None.
Proof.
  intros Hk. unfold load. rewrite (proj2 (Z.ltb_ge k (len s))) by lia.
  by rewrite andb_false_r.
Qed.

(** The swap loop leaves its row: at [i = 4w - 2] it loads [p[4w]]. *)
Lemma swap32_panics (w : Z) (p : slice) (pix : list Z) :
  0 < w → len p = w * 4 → swap32 w p pix = None.
Proof.
  intros Hw Hlen. unfold swap32.
  apply (foldM_fails _ _ (w * 4 - 2)); [apply elem_of_seqZ; lia|].
  intros s. by rewrite (load_oob s p (w * 4 - 2 + 2)) by lia.
Qed.

Lemma rowOrder_first (d : decoder) :
  0 < height d →
  ∃ ys, rowOrder d = (if topDown d then 0 else height d - 1) :: ys.
Proof.
  intros Hh. unfold rowOrder.
  destruct (Z.to_nat (height d)) as [|k] eqn:Hk; [lia|].
  destruct (topDown d); cbn [for_y].
  - rewrite (proj2 (Z.eqb_neq 0 (height d))) by lia. eauto.
  - rewrite (proj2 (Z.eqb_neq (height d - 1) (-1))) by lia. eauto.
Qed.

(** [decode32] panics on every bitmap, and before it has read a byte:
    bottom-up with more than one row in the slice expression of line
    248, otherwise in the swap loop of the first row. *)
Lemma decode32_fill_panics (d : decoder) (r : list Z) :
  0 < width d → 0 < height d → decode32_fill d r = (Panic, r).
Proof.
  intros Hw Hh. unfold decode32_fill. rewrite bind_eq.
  destruct (rowOrder_first d Hh) as [ys ->]. cbn [forM]. rewrite bind_eq.
  cbn [Stride Pix NewBuf].
  set (pix := replicate _ _).
  assert (Hpix : Z.of_nat (length pix) = 4 * width d * height d)
    by (unfold pix; rewrite length_replicate; nia).
  set (y := if topDown d then 0 else height d - 1).
  assert (Hy : 0 ≤ y < height d) by (unfold y; destruct (topDown d); lia).
  assert (Hy' : y = 0 ∨ y = height d - 1) by (unfold y; destruct (topDown d); lia).
  clearbody y pix. rewrite bind_eq.
  rewrite reslice_ok by (unfold whole; cbn [cap]; nia).
  cbn [lift ret]. rewrite bind_eq.
  destruct (decide (y = 0)) as [Hy0|Hy0].
  - subst y. rewrite !Z.mul_0_l, Z.add_0_l, Z.mul_1_l.
    rewrite reslice_ok by (unfold whole; cbn [cap]; nia).
    cbn [lift ret]. rewrite bind_eq.
    unfold readPix, io_ReadFull. cbn [len base].
    change (Z.to_nat (0 - 0)) with 0%nat.
    rewrite decide_True by lia. rewrite !drop_0.
    rewrite swap32_panics by (cbn [len]; lia). done.
  - rewrite reslice_fail by (unfold whole; cbn [cap]; nia). done.
Qed.
(** ** The public functions on accepted inputs *)

Lemma DecodeConfig_returns_inv (s rest : list Z) (cfg : Config) :
  DecodeConfig s = (Returns (cfg, None), rest) →
  ∃ d, decodeConfig new_decoder s = (Ok d, rest) ∧ config d = cfg.
Proof.
  unfold DecodeConfig.
  destruct (decodeConfig new_decoder s) as [[d|?|] r]; intros [= <- <-]; eauto.
Qed.

Lemma decode_after_config (d0 d : decoder) (s r : list Z) :
  decodeConfig d0 s = (Ok d, r) →
  decode d0 s
  = (if bool_decide (bpp d ∈ [1; 4; 8]) then decodePalleted d
     else if bpp d =? 16 then decode16 d
     else if bpp d =? 24 then decode24 d
     else if bpp d =? 32 then decode32 d
     else ret d) r.
Proof. intros Hcfg. unfold decode. by rewrite bind_eq, Hcfg. Qed.

(** Whenever [DecodeConfig] returns without error: the input starts
    with "BM" and a supported header length; the configuration has the
    header's width and the absolute value of its height field, both
    positive; the reader is left at the offset the header declares; the
    colour model is [color.RGBAModel] for 16, 24 and 32 bits per pixel,
    and for 1, 4 and 8 the palette of the header's [numColor] (at most
    192) entries, each read from its four bytes as blue, green, red,
    with alpha [0xff]. *)
Theorem DecodeConfig_returns (s rest : list Z) (cfg : Config) :
  DecodeConfig s = (Returns (cfg, None), rest) →
  sub s 0 2 = [0x42; 0x4d]
  ∧ hdrDibLen s ∈ [40; 52; 60; 96; 108; 112; 120; 124]
  ∧ Width cfg = hdrWidth s ∧ 0 < Width cfg
  ∧ Height cfg = Z.abs (hdrHeight s) ∧ 0 < Height cfg
  ∧ hdrOffset s ≤ Z.of_nat (length s)
  ∧ rest = drop (Z.to_nat (hdrOffset s)) s
  ∧ ((hdrBpp s ∈ [1; 4; 8] ∧ 0 ≤ hdrNumColor s ≤ 192
      ∧ ColorModel cfg
        = Some (Palette (colorTableOf
                           (sub s (fileHeaderLen + hdrDibLen s) (hdrOffset s))
                           (hdrNumColor s))))
     ∨ (hdrBpp s ∈ [16; 24; 32] ∧ ColorModel cfg = Some RGBAModel)).
Proof.
  intros (d & Hcfg & <-)%DecodeConfig_returns_inv.
  apply decodeConfig_ok_inv in Hcfg
    as (d1 & r1 & Hhdr & _ & _ & _ & _ & _ & _ & _ & model & -> & Hmodel);
    [|apply length_tmp_new_decoder|done].
  apply readHeader_ok_inv in Hhdr
    as (Hsig & Hdl & Hlen & -> & Hw & Hw0 & Hh & Hh0 & _ & Hb & _ & Hnc & Hoff & _);
    [|apply length_tmp_new_decoder|done].
  cbn [Width Height ColorModel]. unfold fileHeaderLen, tmpLen in *.
  rewrite <- Hb, <- Hnc.
  assert (40 ≤ hdrDibLen s ≤ 124) by (rewrite !elem_of_cons, elem_of_nil in Hdl; lia).
  repeat (split; [done|]).
  destruct Hmodel as [(Hidx & Hn & Hr1 & -> & ->)|(Hdir & -> & _ & ->)].
  - rewrite bool_decide_true in Hoff by done. rewrite length_drop in Hr1.
    split; [lia|]. split; [rewrite drop_drop; f_equal; lia|].
    left. split; [done|]. split; [lia|]. do 3 f_equal.
    unfold sub. do 2 f_equal. lia.
  - rewrite bool_decide_false in Hoff
      by (rewrite !elem_of_cons, elem_of_nil in *; lia).
    split; [lia|]. split; [f_equal; lia|]. right. done.
Qed.

Lemma DecodeConfig_returns_witness :
  Width (mkConfig (Some (Palette [mkRGBA 0 0 0 0xff; mkRGBA 0xff 0xff 0xff 0xff])) 6 4)
  = hdrWidth bmp1_6x4.
Proof.
  destruct (DecodeConfig_returns bmp1_6x4 (drop 62 bmp1_6x4)
              (mkConfig (Some (Palette [mkRGBA 0 0 0 0xff; mkRGBA 0xff 0xff 0xff 0xff]))
                 6 4)) as (_ & _ & H & _).
  - vm_compute. reflexivity.
  - exact H.
Defined.

(** An input whose header [DecodeConfig] accepts with 32 bits per pixel
    makes [Decode] panic, with the pixel data unread. *)
Theorem Decode_32bit_always_panics (s rest : list Z) (cfg : Config) :
  DecodeConfig s = (Returns (cfg, None), rest) →
  hdrBpp s = 32 →
  Decode s = (Panics, rest).
Proof.
  intros (d & Hcfg & _)%DecodeConfig_returns_inv Hbpp.
  pose proof Hcfg as Hinv.
  apply decodeConfig_ok_inv in Hinv
    as (d1 & r1 & Hhdr & Hw & Hh & Hb & _);
    [|apply length_tmp_new_decoder|done].
  apply readHeader_ok_inv in Hhdr
    as (_ & _ & _ & _ & _ & Hw0 & _ & Hh0 & _ & Hb1 & _);
    [|apply length_tmp_new_decoder|done].
  unfold Decode. rewrite (decode_after_config _ _ _ _ Hcfg).
  rewrite Hb, Hb1, Hbpp.
  rewrite bool_decide_false by (rewrite !elem_of_cons, elem_of_nil; lia).
  change (32 =? 16) with false. change (32 =? 24) with false.
  change (32 =? 32) with true. cbv iota.
  unfold decode32. rewrite bind_eq.
  by rewrite decode32_fill_panics by lia.
Qed.

Lemma Decode_32bit_always_panics_witness :
  Decode bmp32_1x1 = (Panics, [0x10; 0x20; 0x30; 0x40]).
Proof.
  apply (Decode_32bit_always_panics bmp32_1x1 _
           (mkConfig (Some RGBAModel) 1 1)); vm_compute; reflexivity.
Defined.
(** ** Rows and palettes larger than the scratch buffer *)

Lemma rows_panics_wide (n stride : Z) unpack (d : decoder) (pix r : list Z) :
  Z.of_nat (length (tmp d)) < n → 0 < height d →
  rows n stride unpack d pix r = (Panic, r).
Proof.
  intros Hn Hh. unfold rows. destruct (rowOrder_first d Hh) as [ys ->].
  cbn [forM]. rewrite !bind_eq. by rewrite readTmp_panic by done.
Qed.

Lemma quot_rowBytes_nonneg (w bpp : Z) :
  0 < w → 0 < bpp → 0 ≤ (w * bpp + 31) `quot` 32 * 4.
Proof.
  intros Hw Hb. rewrite Z.quot_div_nonneg by nia.
  assert (0 ≤ (w * bpp + 31) `div` 32) by (apply Z.div_pos; nia). lia.
Qed.

(** An input whose header [DecodeConfig] accepts, of 1, 4, 8, 16 or 24
    bits per pixel, with padded rows longer than the scratch buffer of
    [3 * 256] bytes: [Decode] panics in the slice expression of its
    first row read, with the pixel data unread. *)
Theorem Decode_wide_row_panics (s rest : list Z) (cfg : Config) :
  DecodeConfig s = (Returns (cfg, None), rest) →
  hdrBpp s ≠ 32 →
  tmpLen < rowBytes (hdrBpp s) (hdrWidth s) →
  Decode s = (Panics, rest).
Proof.
  intros (d & Hcfg & _)%DecodeConfig_returns_inv Hbpp Hwide.
  pose proof Hcfg as Hinv.
  apply decodeConfig_ok_inv in Hinv
    as (d1 & r1 & Hhdr & Hw & Hh & Hb & _ & _ & _ & Htmp & model & Hconf & Hmodel);
    [|apply length_tmp_new_decoder|done].
  apply readHeader_ok_inv in Hhdr
    as (_ & _ & _ & _ & Hw1 & Hw0 & _ & Hh0 & _ & Hb1 & Hbs & _);
    [|apply length_tmp_new_decoder|done].
  unfold Decode. rewrite (decode_after_config _ _ _ _ Hcfg).
  rewrite <- Hb1, <- Hb, <- Hw1, <- Hw in Hwide.
  rewrite <- Hb1, <- Hb in Hbpp.
  rewrite <- Hb in Hbs. unfold rowBytes in Hwide.
  assert (Hlt : ∀ n, tmpLen < n → Z.of_nat (length (tmp d)) < n)
    by (intros; rewrite Htmp; unfold tmpLen in *; lia).
  case_bool_decide as Hidx.
  - destruct Hmodel as [(_ & _ & _ & _ & ->)|(Hdir & _)].
    2: { rewrite <- Hb in Hdir. rewrite !elem_of_cons, elem_of_nil in *. lia. }
    unfold decodePalleted, decodePalleted_fill. rewrite Hconf. cbn [ColorModel].
    rewrite !bind_eq. by rewrite rows_panics_wide by (auto; lia).
  - destruct (bpp d =? 16) eqn:E16.
    + unfold decode16, decode16_fill. rewrite !bind_eq.
      by rewrite rows_panics_wide by (auto; lia).
    + destruct (bpp d =? 24) eqn:E24.
      * unfold decode24, decode24_fill. rewrite !bind_eq.
        by rewrite rows_panics_wide by (auto; lia).
      * apply Z.eqb_neq in E16, E24.
        rewrite !elem_of_cons, elem_of_nil in *. lia.
Qed.

(** A 24-bit bitmap 257 pixels wide. *)
Lemma Decode_wide_row_panics_witness :
  Decode (mkHeader 54 40 257 1 24 0 0 []) = (Panics, []).
Proof.
  apply (Decode_wide_row_panics _ _ (mkConfig (Some RGBAModel) 257 1)).
  - vm_compute. reflexivity.
  - vm_compute. discriminate.
  - vm_compute. reflexivity.
Defined.

(** A header the parser accepts, of 1, 4 or 8 bits per pixel, that
    declares more than 192 colours: both public functions panic in the
    slice expression [d.tmp[:d.numColor*4]], with the colour table
    unread. *)
Theorem DecodeConfig_large_palette_panics (s r : list Z) (d : decoder) :
  readHeader new_decoder s = (Ok d, r) →
  bpp d ∈ [1; 4; 8] → 192 < numColor d →
  DecodeConfig s = (Panics, r) ∧ Decode s = (Panics, r).
Proof.
  intros Hhdr Hidx Hnc.
  pose proof (readHeader_ok_inv _ _ _ _ length_tmp_new_decoder eq_refl Hhdr)
    as (_ & _ & _ & _ & _ & _ & _ & _ & _ & _ & _ & _ & _ & Htmp & _).
  assert (Hcfg : decodeConfig new_decoder s = (Panic, r)).
  { unfold decodeConfig. rewrite bind_eq, Hhdr, bind_eq.
    rewrite bool_decide_true by done. rewrite bind_eq.
    by rewrite readTmp_panic by (rewrite Htmp; unfold tmpLen; lia). }
  unfold DecodeConfig, Decode, decode. by rewrite bind_eq, Hcfg.
Qed.

Lemma DecodeConfig_large_palette_panics_witness :
  (DecodeConfig bmp8_256).1 = Panics ∧ (Decode bmp8_256).1 = Panics.
Proof.
  pose (x := readHeader new_decoder bmp8_256).
  destruct (DecodeConfig_large_palette_panics bmp8_256 x.2
              (match x.1 with Ok d => d | _ => new_decoder end)) as [-> ->].
  - vm_compute. reflexivity.
  - change (8 ∈ [1; 4; 8]). rewrite !elem_of_cons. auto.
  - vm_compute. reflexivity.
  - done.
Defined.
